(** * VoiceAgent: the voice-assistant widget of src/components/VoiceAgent.tsx

    A shallow embedding of the component's state, of its operations
    ([startConversation], [endConversation], [toggleMute],
    [addToTranscript], [handleSendMessage]), of the listeners it attaches to
    the call frame and of its effects (auto-connect, timer), followed by the
    properties of the specification.

    Modelling conventions.
    - A JavaScript string is its list of UTF-16 code units.
    - React state and refs are fields of one record; a handler reads the
      values current when it is invoked, and the state updates of one
      handler are applied together, as React batches them.  The values an
      [async] function captured at invocation ([callFrame], the new frame)
      travel in its continuation.
    - An [async] function is cut at its [await]s: the synchronous prefix
      returns the new state and, when it suspends, a continuation [Cont];
      [resume] runs from one [await] to the next, given how the awaited
      promise settled.
    - What the component does to the outside (network request, SDK calls,
      toasts, console output) is appended to the [effects] log, in order.
    - The asynchronous SDK calls ([leave], [destroy], [join]) and the request
      settle as the environment decides; the synchronous SDK calls return
      normally. *)

From Stdlib Require Import List NArith ZArith String Ascii Bool Lia DecimalString.
From Stdlib Require Import DecimalPos DecimalN.
Import ListNotations.

Set Warnings "-register-all".

(** ** JavaScript strings *)

Module Js.

Definition jsstring := list N.

(** A string literal of the source (ASCII). *)
Definition lit (s : string) : jsstring :=
  map N_of_ascii (list_ascii_of_string s).

Fixpoint eqb (a b : jsstring) : bool :=
  match a, b with
  | [], [] => true
  | x :: a', y :: b' => N.eqb x y && eqb a' b'
  | _, _ => false
  end.

(** Truthiness of a string: every string but the empty one. *)
Definition nonempty (s : jsstring) : bool :=
  match s with [] => false | _ :: _ => true end.

(** The class [\s] of regular expressions, which is also what [trim]
    removes: WhiteSpace and LineTerminator code points. *)
Definition is_space (c : N) : bool :=
  existsb (N.eqb c)
    [9; 10; 11; 12; 13; 32; 160; 5760; 8232; 8233; 8239; 8287; 12288; 65279]%N
  || (N.leb 8192 c && N.leb c 8202).

(** [!s.trim()] *)
Definition blank (s : jsstring) : bool := forallb is_space s.

(** Upper-casing of the ASCII letters.  Under the [i] flag (without [u]) a
    code unit matches an ASCII letter of the pattern exactly when it is that
    letter in either case: canonicalisation never maps a code unit above 127
    to one below 128. *)
Definition ascii_upper (c : N) : N :=
  if N.leb 97 c && N.leb c 122 then (c - 32)%N else c.

Definition ci_eqb (p c : N) : bool := N.eqb (ascii_upper p) (ascii_upper c).

(** Matches [pat] case-insensitively at the start of [s]; returns the rest. *)
Fixpoint strip_prefix_ci (pat s : jsstring) : option jsstring :=
  match pat with
  | [] => Some s
  | p :: pat' =>
      match s with
      | [] => None
      | c :: s' => if ci_eqb p c then strip_prefix_ci pat' s' else None
      end
  end.

(** Exact prefix test, [s.startsWith(pat)]. *)
Fixpoint startsWith (pat s : jsstring) : bool :=
  match pat with
  | [] => true
  | p :: pat' =>
      match s with
      | [] => false
      | c :: s' => N.eqb p c && startsWith pat' s'
      end
  end.

(** Decimal rendering of a non-negative integer, [n.toString()]. *)
Definition of_N (n : N) : jsstring := lit (NilZero.string_of_uint (N.to_uint n)).

End Js.

Import Js.

(** ** Parsed JSON, property reads and truthiness *)

Inductive Json :=
| JNull
| JBool (b : bool)
| JNum (n : Z)   (* integers suffice: only whether a number is zero is observed *)
| JStr (s : jsstring)
| JArr (items : list Json)
| JObj (fields : list (jsstring * Json)).

(** A JavaScript value read from a property: [None] is [undefined]. *)
Definition Value := option Json.

Definition truthy (v : Value) : bool :=
  match v with
  | None | Some JNull => false
  | Some (JBool b) => b
  | Some (JNum n) => negb (Z.eqb n 0)
  | Some (JStr s) => nonempty s
  | Some (JArr _) | Some (JObj _) => true
  end.

(** [a || b] *)
Definition js_or (a b : Value) : Value := if truthy a then a else b.

Fixpoint lookup (k : jsstring) (fields : list (jsstring * Json)) : Value :=
  match fields with
  | [] => None
  | (k', v) :: rest => if Js.eqb k k' then Some v else lookup k rest
  end.

(** [data.k] for [data] other than [null]: own fields of an object;
    [undefined] on numbers, booleans, strings and arrays for the names read
    here. *)
Definition prop (data : Json) (k : string) : Value :=
  match data with
  | JObj fields => lookup (lit k) fields
  | _ => None
  end.

(** ** Errors *)

Inductive Exn :=
| ConfigurationError                                   (* line 107 *)
| RequestError (status : N) (statusText errorText : jsstring)  (* line 138 *)
| ResponseShapeError                                   (* line 202 *)
| NullPropertyError    (* the TypeError of [data.dailyRoom] when [data] is null *)
| ExternalError (msg : option jsstring)
    (* a rejection reason that comes from fetch, the body readers or the SDK,
       other than undefined and null; [msg] is its [message], if it has one *)
| BareReason           (* a rejection reason that is undefined or null *)
| NoMessageError.      (* the TypeError of [error.message] on such a reason *)

(** [error.message] *)
Definition message (e : Exn) : option jsstring :=
  match e with
  | ConfigurationError =>
      Some (lit "VITE_PIPECAT_TOKEN is not configured in .env file")
  | RequestError status statusText errorText =>
      Some (lit "API request failed: " ++ of_N status ++ lit " " ++ statusText
            ++ lit " - " ++ errorText)
  | ResponseShapeError =>
      Some (lit "Missing room URL or token from API response")
  | NullPropertyError =>
      Some (lit "Cannot read properties of null (reading 'dailyRoom')")
  | ExternalError msg => msg
  | BareReason => None   (* not read: see [catchBlock] *)
  | NoMessageError =>
      Some (lit "Cannot read properties of undefined (reading 'message')")
  end.

(** [error.message || "Could not start conversation"] *)
Definition description (e : Exn) : jsstring :=
  match message e with
  | Some (c :: m) => c :: m
  | _ => lit "Could not start conversation"
  end.

(** ** Data model *)

Inductive Speaker := user | ai.

Record TranscriptMessage := {
  id : jsstring;
  speaker : Speaker;
  text : jsstring;
  timestamp : N
}.

Definition FrameId := nat.
Definition IntervalId := nat.

Inductive ConsoleArg :=
| CStr (s : jsstring)
| CBool (b : bool)
| CJson (j : Json)
| CExn (e : Exn).

Inductive Effect :=
| EConsoleLog (args : list ConsoleArg)
| EConsoleError (args : list ConsoleArg)
| EFetch (endpoint authorization : jsstring)   (* the POST of lines 115-133 *)
| ECreateFrame (f : FrameId)
| ELeave (f : FrameId)
| EDestroy (f : FrameId)
| EJoin (f : FrameId) (url token : option Json)   (* [None] is undefined *)
| ESetLocalAudio (f : FrameId) (enabled : bool)
| EToast (title description : jsstring) (destructive : bool)
| EUnhandledRejection (e : Exn).

Record State := {
  (* useState *)
  isOpen : bool;
  isConnected : bool;
  isConnecting : bool;
  isMuted : bool;
  transcript : list TranscriptMessage;
  callFrame : option FrameId;
  timer : N;
  inputText : jsstring;
  (* useRef *)
  connectLockRef : bool;
  timerRef : option IntervalId;
  (* the world around the component *)
  effects : list Effect;
  nextFrame : FrameId;              (* frames created so far: 0 .. nextFrame-1 *)
  intervals : list IntervalId;      (* intervals set and not cleared *)
  nextInterval : IntervalId;
  timeouts : nat                    (* setTimeout callbacks not yet run *)
}.

Definition initial : State := {|
  isOpen := false; isConnected := false; isConnecting := false;
  isMuted := false; transcript := []; callFrame := None; timer := 0%N;
  inputText := []; connectLockRef := false; timerRef := None;
  effects := []; nextFrame := 0; intervals := []; nextInterval := 1;
  timeouts := 0
|}.

Definition setIsOpen (v : bool) (s : State) : State :=
  {| isOpen := v; isConnected := isConnected s; isConnecting := isConnecting s;
     isMuted := isMuted s; transcript := transcript s; callFrame := callFrame s;
     timer := timer s; inputText := inputText s;
     connectLockRef := connectLockRef s; timerRef := timerRef s;
     effects := effects s; nextFrame := nextFrame s; intervals := intervals s;
     nextInterval := nextInterval s; timeouts := timeouts s |}.

Definition setIsConnected (v : bool) (s : State) : State :=
  {| isOpen := isOpen s; isConnected := v; isConnecting := isConnecting s;
     isMuted := isMuted s; transcript := transcript s; callFrame := callFrame s;
     timer := timer s; inputText := inputText s;
     connectLockRef := connectLockRef s; timerRef := timerRef s;
     effects := effects s; nextFrame := nextFrame s; intervals := intervals s;
     nextInterval := nextInterval s; timeouts := timeouts s |}.

Definition setIsConnecting (v : bool) (s : State) : State :=
  {| isOpen := isOpen s; isConnected := isConnected s; isConnecting := v;
     isMuted := isMuted s; transcript := transcript s; callFrame := callFrame s;
     timer := timer s; inputText := inputText s;
     connectLockRef := connectLockRef s; timerRef := timerRef s;
     effects := effects s; nextFrame := nextFrame s; intervals := intervals s;
     nextInterval := nextInterval s; timeouts := timeouts s |}.

Definition setIsMuted (v : bool) (s : State) : State :=
  {| isOpen := isOpen s; isConnected := isConnected s;
     isConnecting := isConnecting s;
     isMuted := v; transcript := transcript s; callFrame := callFrame s;
     timer := timer s; inputText := inputText s;
     connectLockRef := connectLockRef s; timerRef := timerRef s;
     effects := effects s; nextFrame := nextFrame s; intervals := intervals s;
     nextInterval := nextInterval s; timeouts := timeouts s |}.

Definition setTranscript (v : list TranscriptMessage) (s : State) : State :=
  {| isOpen := isOpen s; isConnected := isConnected s;
     isConnecting := isConnecting s;
     isMuted := isMuted s; transcript := v; callFrame := callFrame s;
     timer := timer s; inputText := inputText s;
     connectLockRef := connectLockRef s; timerRef := timerRef s;
     effects := effects s; nextFrame := nextFrame s; intervals := intervals s;
     nextInterval := nextInterval s; timeouts := timeouts s |}.

Definition setCallFrame (v : option FrameId) (s : State) : State :=
  {| isOpen := isOpen s; isConnected := isConnected s;
     isConnecting := isConnecting s;
     isMuted := isMuted s; transcript := transcript s; callFrame := v;
     timer := timer s; inputText := inputText s;
     connectLockRef := connectLockRef s; timerRef := timerRef s;
     effects := effects s; nextFrame := nextFrame s; intervals := intervals s;
     nextInterval := nextInterval s; timeouts := timeouts s |}.

Definition setTimer (v : N) (s : State) : State :=
  {| isOpen := isOpen s; isConnected := isConnected s;
     isConnecting := isConnecting s;
     isMuted := isMuted s; transcript := transcript s; callFrame := callFrame s;
     timer := v; inputText := inputText s;
     connectLockRef := connectLockRef s; timerRef := timerRef s;
     effects := effects s; nextFrame := nextFrame s; intervals := intervals s;
     nextInterval := nextInterval s; timeouts := timeouts s |}.

Definition setInputText (v : jsstring) (s : State) : State :=
  {| isOpen := isOpen s; isConnected := isConnected s;
     isConnecting := isConnecting s;
     isMuted := isMuted s; transcript := transcript s; callFrame := callFrame s;
     timer := timer s; inputText := v;
     connectLockRef := connectLockRef s; timerRef := timerRef s;
     effects := effects s; nextFrame := nextFrame s; intervals := intervals s;
     nextInterval := nextInterval s; timeouts := timeouts s |}.

Definition setConnectLock (v : bool) (s : State) : State :=
  {| isOpen := isOpen s; isConnected := isConnected s;
     isConnecting := isConnecting s;
     isMuted := isMuted s; transcript := transcript s; callFrame := callFrame s;
     timer := timer s; inputText := inputText s;
     connectLockRef := v; timerRef := timerRef s;
     effects := effects s; nextFrame := nextFrame s; intervals := intervals s;
     nextInterval := nextInterval s; timeouts := timeouts s |}.

Definition setTimerRef (v : option IntervalId) (s : State) : State :=
  {| isOpen := isOpen s; isConnected := isConnected s;
     isConnecting := isConnecting s;
     isMuted := isMuted s; transcript := transcript s; callFrame := callFrame s;
     timer := timer s; inputText := inputText s;
     connectLockRef := connectLockRef s; timerRef := v;
     effects := effects s; nextFrame := nextFrame s; intervals := intervals s;
     nextInterval := nextInterval s; timeouts := timeouts s |}.

Definition setEffects (v : list Effect) (s : State) : State :=
  {| isOpen := isOpen s; isConnected := isConnected s;
     isConnecting := isConnecting s;
     isMuted := isMuted s; transcript := transcript s; callFrame := callFrame s;
     timer := timer s; inputText := inputText s;
     connectLockRef := connectLockRef s; timerRef := timerRef s;
     effects := v; nextFrame := nextFrame s; intervals := intervals s;
     nextInterval := nextInterval s; timeouts := timeouts s |}.

Definition setNextFrame (v : FrameId) (s : State) : State :=
  {| isOpen := isOpen s; isConnected := isConnected s;
     isConnecting := isConnecting s;
     isMuted := isMuted s; transcript := transcript s; callFrame := callFrame s;
     timer := timer s; inputText := inputText s;
     connectLockRef := connectLockRef s; timerRef := timerRef s;
     effects := effects s; nextFrame := v; intervals := intervals s;
     nextInterval := nextInterval s; timeouts := timeouts s |}.

Definition setIntervals (v : list IntervalId) (s : State) : State :=
  {| isOpen := isOpen s; isConnected := isConnected s;
     isConnecting := isConnecting s;
     isMuted := isMuted s; transcript := transcript s; callFrame := callFrame s;
     timer := timer s; inputText := inputText s;
     connectLockRef := connectLockRef s; timerRef := timerRef s;
     effects := effects s; nextFrame := nextFrame s; intervals := v;
     nextInterval := nextInterval s; timeouts := timeouts s |}.

Definition setNextInterval (v : IntervalId) (s : State) : State :=
  {| isOpen := isOpen s; isConnected := isConnected s;
     isConnecting := isConnecting s;
     isMuted := isMuted s; transcript := transcript s; callFrame := callFrame s;
     timer := timer s; inputText := inputText s;
     connectLockRef := connectLockRef s; timerRef := timerRef s;
     effects := effects s; nextFrame := nextFrame s; intervals := intervals s;
     nextInterval := v; timeouts := timeouts s |}.

Definition setTimeouts (v : nat) (s : State) : State :=
  {| isOpen := isOpen s; isConnected := isConnected s;
     isConnecting := isConnecting s;
     isMuted := isMuted s; transcript := transcript s; callFrame := callFrame s;
     timer := timer s; inputText := inputText s;
     connectLockRef := connectLockRef s; timerRef := timerRef s;
     effects := effects s; nextFrame := nextFrame s; intervals := intervals s;
     nextInterval := nextInterval s; timeouts := v |}.

(** One effect on the outside world, recorded after those before it. *)
Definition emit (e : Effect) (s : State) : State :=
  setEffects (effects s ++ [e]) s.

(** ** Configuration ([import.meta.env]) *)

Record Env := {
  VITE_PIPECAT_ENDPOINT : option jsstring;
  VITE_PIPECAT_TOKEN : option jsstring
}.

(** A setting is truthy when it is defined and not the empty string. *)
Definition configured (v : option jsstring) : bool :=
  match v with Some (_ :: _) => true | _ => false end.

Definition defaultEndpoint : jsstring :=
  lit "https://api.pipecat.daily.co/v1/public/webagent/start".

(** ** The Authorization header (line 112) *)

(** [apiKey.match(/^Bearer\s+/i)] *)
Definition matchesBearer (apiKey : jsstring) : bool :=
  match strip_prefix_ci (lit "Bearer") apiKey with
  | Some (c :: _) => is_space c
  | _ => false
  end.

Definition authHeader (apiKey : jsstring) : jsstring :=
  if matchesBearer apiKey then apiKey else lit "Bearer " ++ apiKey.

(** ** How awaited promises settle, and where an async function waits *)

Inductive Settled :=
| Resolved
| Rejected (msg : option jsstring)   (* with a reason other than undefined, null *)
| RejectedBare.                     (* with undefined or null *)

(** The promise [fetchPromise] of lines 115-141. *)
Inductive FetchResult :=
| FetchRejected (msg : option jsstring)  (* fetch, res.text() or res.json() rejects *)
| HttpError (status : N) (statusText errorText : jsstring)  (* !res.ok *)
| HttpOk (data : Json)
| FetchRejectedBare.                     (* a rejection with undefined or null *)

Inductive Outcome :=
| Settle (r : Settled)
| Response (r : FetchResult).

Inductive Cont :=
| AwaitOldLeave (old : FrameId)     (* startConversation at line 145 *)
| AwaitOldDestroy (old : FrameId)   (* startConversation at line 146 *)
| AwaitFetch (frame : FrameId)      (* startConversation at line 196 *)
| AwaitJoin (frame : FrameId)       (* startConversation at line 206 *)
| AwaitEndLeave (old : FrameId).    (* endConversation at line 223 *)

(** ** Operations *)

(** Lines 69-79.  The random id and the wall-clock time are given by the
    environment. *)
Definition addToTranscript (newId : jsstring) (now : N)
    (sp : Speaker) (txt : jsstring) (s : State) : State :=
  setTranscript
    (transcript s ++ [{| id := newId; speaker := sp; text := txt; timestamp := now |}])
    s.

(** The [catch] block of [startConversation], lines 213-218.  Line 217 reads
    [error.message]: on a reason that is undefined or null the read throws,
    no toast is shown and the promise of [startConversation] rejects,
    unhandled. *)
Definition catchBlock (e : Exn) (s : State) : State :=
  let s :=
    setConnectLock false
      (setIsConnecting false
        (emit (EConsoleError [CExn e]) s)) in
  match e with
  | BareReason => emit (EUnhandledRejection NoMessageError) s
  | _ => emit (EToast (lit "Error") (description e) true) s
  end.

(** [promise.catch(console.error)] *)
Definition swallow (r : Settled) (s : State) : State :=
  match r with
  | Resolved => s
  | Rejected msg => emit (EConsoleError [CExn (ExternalError msg)]) s
  | RejectedBare => emit (EConsoleError [CExn BareReason]) s
  end.

(** Lines 150-196: the new frame is created, its listeners attached, and the
    function waits for the response. *)
Definition createFrameAndListen (s : State) : State * option Cont :=
  let frame := nextFrame s in
  (setNextFrame (S frame) (emit (ECreateFrame frame) s), Some (AwaitFetch frame)).

Section Component.

Variable env : Env.

(** Lines 81-196, up to the first [await]: that of line 145 when a frame is
    stored, that of line 196 otherwise. *)
Definition startConversation (s : State) : State * option Cont :=
  if connectLockRef s || isConnecting s || isConnected s then (s, None)
  else
    let s := setConnectLock true s in
    let s := setIsConnecting true s in
    let endpoint :=
      match VITE_PIPECAT_ENDPOINT env with
      | Some (c :: e) => c :: e
      | _ => defaultEndpoint
      end in
    let s := emit (EConsoleLog
                     [CStr (lit "Connecting to Pipecat endpoint:"); CStr endpoint]) s in
    let s := emit (EConsoleLog
                     [CStr (lit "API Key provided:");
                      CBool (configured (VITE_PIPECAT_TOKEN env))]) s in
    match VITE_PIPECAT_TOKEN env with
    | Some (c :: k) =>
        let s := emit (EFetch endpoint (authHeader (c :: k))) s in
        match callFrame s with
        | Some old => (emit (ELeave old) s, Some (AwaitOldLeave old))
        | None => createFrameAndListen s
        end
    | _ => (catchBlock ConfigurationError s, None)
    end.

(** Lines 221-227, up to the [await]. *)
Definition endConversation (s : State) : State * option Cont :=
  match callFrame s with
  | Some old => (emit (ELeave old) s, Some (AwaitEndLeave old))
  | None => (setIsOpen false (setIsConnected false s), None)
  end.

(** An async function continues after the promise it awaits has settled.
    An outcome of the other kind is not for this [await]: the function stays
    suspended.  What the [then] callback of lines 134-141 logs is recorded
    when the function takes the response up. *)
Definition resume (c : Cont) (o : Outcome) (s : State) : State * option Cont :=
  match c, o with
  | AwaitOldLeave old, Settle r =>
      (emit (EDestroy old) (swallow r s), Some (AwaitOldDestroy old))
  | AwaitOldDestroy old, Settle r =>
      createFrameAndListen (setCallFrame None (swallow r s))
  | AwaitFetch frame, Response (FetchRejected msg) =>
      (catchBlock (ExternalError msg) s, None)
  | AwaitFetch frame, Response FetchRejectedBare =>
      (catchBlock BareReason s, None)
  | AwaitFetch frame, Response (HttpError status statusText errorText) =>
      (catchBlock (RequestError status statusText errorText)
         (emit (EConsoleError [CStr (lit "API Error Response:"); CStr errorText]) s),
       None)
  | AwaitFetch frame, Response (HttpOk JNull) =>
      (catchBlock NullPropertyError s, None)
  | AwaitFetch frame, Response (HttpOk data) =>
      let roomUrl :=
        js_or (js_or (prop data "dailyRoom") (prop data "room_url"))
              (prop data "roomUrl") in
      let roomToken := js_or (prop data "dailyToken") (prop data "token") in
      if negb (truthy roomUrl) || negb (truthy roomToken) then
        (catchBlock ResponseShapeError
           (emit (EConsoleError [CStr (lit "API Response:"); CJson data]) s),
         None)
      else (emit (EJoin frame roomUrl roomToken) s, Some (AwaitJoin frame))
  | AwaitJoin frame, Settle Resolved => (setCallFrame (Some frame) s, None)
  | AwaitJoin frame, Settle (Rejected msg) =>
      (catchBlock (ExternalError msg) s, None)
  | AwaitJoin frame, Settle RejectedBare =>
      (catchBlock BareReason s, None)
  | AwaitEndLeave old, Settle Resolved =>
      (setIsOpen false (setIsConnected false s), None)
  | AwaitEndLeave old, Settle (Rejected msg) =>
      (emit (EUnhandledRejection (ExternalError msg)) s, None)
  | AwaitEndLeave old, Settle RejectedBare =>
      (emit (EUnhandledRejection BareReason) s, None)
  | _, _ => (s, Some c)
  end.

(** Lines 229-235. *)
Definition toggleMute (s : State) : State :=
  let newMuteState := negb (isMuted s) in
  let s :=
    match callFrame s with
    | Some f => emit (ESetLocalAudio f (negb newMuteState)) s
    | None => s
    end in
  setIsMuted newMuteState s.

(** Lines 238-248. *)
Definition handleSendMessage (newId : jsstring) (now : N) (s : State) : State :=
  if blank (inputText s) then s
  else
    let s := addToTranscript newId now user (inputText s) s in
    let s := setInputText [] s in
    setTimeouts (S (timeouts s)) s.

(** The callback of line 246. *)
Definition mockReply (newId : jsstring) (now : N) (s : State) : State :=
  match timeouts s with
  | 0 => s
  | S n =>
      addToTranscript newId now ai
        (lit "I am a mock bot response. The API is bypassed for testing.")
        (setTimeouts n s)
  end.

(** *** Listeners of the call frame, lines 164-193 *)

Definition onJoinedMeeting (s : State) : State :=
  setConnectLock false (setIsConnecting false (setIsConnected true s)).

Definition onLeftMeeting (s : State) : State :=
  setConnectLock false (setIsConnected false s).

Definition onError (s : State) : State :=
  emit (EToast (lit "Error") (lit "Connection failed") true)
    (setConnectLock false (setIsConnecting false s)).

Definition onParticipantJoined (user_name newId : jsstring) (now : N)
    (s : State) : State :=
  if Js.eqb user_name (lit "Chatbot")
  then addToTranscript newId now ai (lit "I am Farm Vaidya AI") s
  else s.

Definition onActiveSpeakerChange (s : State) : State := s.

(** *** Effects *)

Definition clearInterval (i : IntervalId) (s : State) : State :=
  setIntervals (remove Nat.eq_dec i (intervals s)) s.

(** [if (timerRef.current) clearInterval(timerRef.current)] *)
Definition clearTimerRef (s : State) : State :=
  match timerRef s with
  | Some i => clearInterval i s
  | None => s
  end.

(** The timer effect, lines 42-52, run when [isConnected] has changed. *)
Definition timerEffect (s : State) : State :=
  if isConnected s then
    let i := nextInterval s in
    setTimerRef (Some i)
      (setNextInterval (S i) (setIntervals (intervals s ++ [i]) s))
  else setTimer 0 (clearTimerRef s).

(** Its cleanup, lines 53-57. *)
Definition timerCleanup (s : State) : State := clearTimerRef s.

(** The interval callback of line 45. *)
Definition tick (i : IntervalId) (s : State) : State :=
  if existsb (Nat.eqb i) (intervals s) then setTimer (timer s + 1) s else s.

(** The auto-connect effect, lines 35-39, run when [isOpen] has changed. *)
Definition autoConnectEffect (s : State) : State * option Cont :=
  if isOpen s && negb (isConnected s) && negb (isConnecting s)
  then startConversation s
  else (s, None).

(** After a handler has run the component renders again and the effects
    whose dependency changed run: cleanups first, then the effects in the
    order of their declaration. *)
Definition commit (before after : State) : State * option Cont :=
  let connectedChanged := negb (Bool.eqb (isConnected before) (isConnected after)) in
  let openChanged := negb (Bool.eqb (isOpen before) (isOpen after)) in
  let s := if connectedChanged then timerCleanup after else after in
  let '(s, k) := if openChanged then autoConnectEffect s else (s, None) in
  let s := if connectedChanged then timerEffect s else s in
  (s, k).

(** ** The component as a machine: what can happen next *)

Record Machine := {
  comp : State;
  tasks : list Cont          (* the suspended async functions *)
}.

Definition mounted : Machine := {| comp := initial; tasks := [] |}.

Inductive Label :=
| ClickOpen                                   (* line 311 *)
| ClickEnd                                    (* line 300 *)
| ClickMute                                   (* line 291 *)
| Start                                       (* startConversation() *)
| SendMessage (newId : jsstring) (now : N)
| Timeout (newId : jsstring) (now : N)
| Tick (i : IntervalId)
| JoinedMeeting (f : FrameId)
| LeftMeeting (f : FrameId)
| ErrorEvent (f : FrameId)
| ParticipantJoined (f : FrameId) (user_name newId : jsstring) (now : N)
| ActiveSpeakerChange (f : FrameId)
| Deliver (task : nat) (o : Outcome).

Definition spawn (k : option Cont) (ts : list Cont) : list Cont :=
  match k with
  | Some c => ts ++ [c]
  | None => ts
  end.

(** A listener runs only on a frame that exists. *)
Definition onFrame (f : FrameId) (h : State -> State) (s : State) : State :=
  if Nat.ltb f (nextFrame s) then h s else s.

(** The handler a label stands for: the state it leaves and the suspended
    functions. *)
Definition handle (l : Label) (m : Machine) : State * list Cont :=
  let s := comp m in
  let ts := tasks m in
  match l with
  | ClickOpen => (setIsOpen true s, ts)
  | ClickEnd => let '(s', k) := endConversation s in (s', spawn k ts)
  | ClickMute => (toggleMute s, ts)
  | Start => let '(s', k) := startConversation s in (s', spawn k ts)
  | SendMessage newId now => (handleSendMessage newId now s, ts)
  | Timeout newId now => (mockReply newId now s, ts)
  | Tick i => (tick i s, ts)
  | JoinedMeeting f => (onFrame f onJoinedMeeting s, ts)
  | LeftMeeting f => (onFrame f onLeftMeeting s, ts)
  | ErrorEvent f => (onFrame f onError s, ts)
  | ParticipantJoined f user_name newId now =>
      (onFrame f (onParticipantJoined user_name newId now) s, ts)
  | ActiveSpeakerChange f => (onFrame f onActiveSpeakerChange s, ts)
  | Deliver i o =>
      match nth_error ts i with
      | Some c =>
          let '(s', k) := resume c o s in
          (s', firstn i ts ++ spawn k [] ++ skipn (S i) ts)
      | None => (s, ts)
      end
  end.

Definition step (l : Label) (m : Machine) : Machine :=
  let '(s1, ts) := handle l m in
  let '(s2, k) := commit (comp m) s1 in
  {| comp := s2; tasks := spawn k ts |}.

Definition run (ls : list Label) (m : Machine) : Machine :=
  fold_left (fun m l => step l m) ls m.

End Component.

(** ** Observations on the effect log *)

Definition isFetch (e : Effect) : bool :=
  match e with EFetch _ _ => true | _ => false end.

Definition isCreateFrame (e : Effect) : bool :=
  match e with ECreateFrame _ => true | _ => false end.

Definition isJoin (e : Effect) : bool :=
  match e with EJoin _ _ _ => true | _ => false end.

Definition isDestroy (f : FrameId) (e : Effect) : bool :=
  match e with EDestroy g => Nat.eqb f g | _ => false end.

(** The network requests issued so far. *)
Definition requests (s : State) : list Effect := filter isFetch (effects s).

(** The transport handles created so far. *)
Definition framesCreated (s : State) : list Effect :=
  filter isCreateFrame (effects s).

(** The [join] calls made so far. *)
Definition joins (s : State) : list Effect := filter isJoin (effects s).

(** A handle is live from its creation until [destroy] is called on it. *)
Definition live (s : State) (f : FrameId) : bool :=
  Nat.ltb f (nextFrame s) && negb (existsb (isDestroy f) (effects s)).

Definition liveFrames (s : State) : list FrameId :=
  filter (live s) (seq 0 (nextFrame s)).

(** ** One connection attempt, run without interleaving *)

(** How the promises awaited by one attempt settle. *)
Record Outcomes := {
  oldLeave : Settled;
  oldDestroy : Settled;
  response : FetchResult;
  join : Settled
}.

Definition outcomeFor (o : Outcomes) (c : Cont) : Outcome :=
  match c with
  | AwaitOldLeave _ => Settle (oldLeave o)
  | AwaitOldDestroy _ => Settle (oldDestroy o)
  | AwaitFetch _ => Response (response o)
  | AwaitJoin _ => Settle (join o)
  | AwaitEndLeave _ => Settle (oldLeave o)
  end.

(** [advance n o] lets a suspended function take up to [n] of its
    [await]s. *)
Fixpoint advance (n : nat) (o : Outcomes)
    (sk : State * option Cont) : State * option Cont :=
  match n, sk with
  | S n', (s, Some c) => advance n' o (resume c (outcomeFor o c) s)
  | _, _ => sk
  end.

(** An attempt has at most four [await]s. *)
Definition attempt (env : Env) (o : Outcomes) (s : State) : State * option Cont :=
  advance 4 o (startConversation env s).

(** Whether the response carries a room URL and a token. *)
Definition wellShaped (r : FetchResult) : bool :=
  match r with
  | HttpOk JNull => false
  | HttpOk data =>
      let roomUrl :=
        js_or (js_or (prop data "dailyRoom") (prop data "room_url"))
              (prop data "roomUrl") in
      let roomToken := js_or (prop data "dailyToken") (prop data "token") in
      negb (negb (truthy roomUrl) || negb (truthy roomToken))
  | _ => false
  end.

(** An attempt succeeds when the response is well shaped and [join] resolves. *)
Definition succeeds (o : Outcomes) : bool :=
  wellShaped (response o)
  && match join o with Resolved => true | _ => false end.

(** The [await]s an attempt still has before it, at most. *)
Definition awaitsLeft (k : option Cont) : nat :=
  match k with
  | None => 0
  | Some (AwaitJoin _) | Some (AwaitEndLeave _) => 1
  | Some (AwaitFetch _) => 2
  | Some (AwaitOldDestroy _) => 3
  | Some (AwaitOldLeave _) => 4
  end.

(** The frames an attempt has still to create: one, until the teardown of
    the previous frame is over. *)
Definition framesToCome (k : option Cont) : nat :=
  match k with
  | Some (AwaitOldLeave _) | Some (AwaitOldDestroy _) => 1
  | _ => 0
  end.

(** Where [callFrame] stands in the course of an attempt begun in [s0]:
    untouched while the previous frame is torn down, null from the creation
    of the new frame (which is frame [nextFrame s0]) on, and the new frame
    once the attempt has ended well. *)
Definition callFrameDuring (o : Outcomes) (s0 : State)
    (sk : State * option Cont) : Prop :=
  let s := fst sk in
  match snd sk with
  | Some (AwaitOldLeave _) | Some (AwaitOldDestroy _) =>
      callFrame s = callFrame s0 /\ nextFrame s = nextFrame s0
  | Some (AwaitFetch f) => callFrame s = None /\ f = nextFrame s0
  | Some (AwaitJoin f) =>
      callFrame s = None /\ f = nextFrame s0 /\ wellShaped (response o) = true
  | Some (AwaitEndLeave _) => False
  | None => callFrame s = if succeeds o then Some (nextFrame s0) else None
  end.

(** ** What a handler can do to the component, as a relation

    [transition env s s'] holds when some handler (a click, a timer or
    timeout callback, a listener of a frame that exists, or an async function
    resuming) takes the component from [s] to [s'], before the effects run. *)
Inductive transition (env : Env) (s : State) : State -> Prop :=
| t_open : transition env s (setIsOpen true s)
| t_end : transition env s (fst (endConversation s))
| t_mute : transition env s (toggleMute s)
| t_start : transition env s (fst (startConversation env s))
| t_send newId now : transition env s (handleSendMessage newId now s)
| t_timeout newId now : transition env s (mockReply newId now s)
| t_tick i : transition env s (tick i s)
| t_joined f : f < nextFrame s -> transition env s (onJoinedMeeting s)
| t_left f : f < nextFrame s -> transition env s (onLeftMeeting s)
| t_error f : f < nextFrame s -> transition env s (onError s)
| t_participant f user_name newId now :
    f < nextFrame s ->
    transition env s (onParticipantJoined user_name newId now s)
| t_resume c o : transition env s (fst (resume c o s))
| t_none : transition env s s.

(** ** Invariants *)

(** [isConnecting] and [isConnected] are not both true. *)
Definition exclusive (s : State) : Prop :=
  isConnecting s && isConnected s = false.

(** The timer against a connection status: while connected exactly one
    interval runs, the one [timerRef] holds; otherwise none runs and the
    timer shows 0. *)
Definition timerOk (connected : bool) (s : State) : Prop :=
  if connected
  then exists i, timerRef s = Some i /\ intervals s = [i]
  else timer s = 0%N /\ intervals s = [].

Definition timerInv (s : State) : Prop := timerOk (isConnected s) s.

(** Without a credential the component never leaves this condition: nothing
    in flight, no frame, no request. *)
Definition idleState (s : State) : Prop :=
  connectLockRef s = false /\ isConnecting s = false /\
  isConnected s = false /\ callFrame s = None /\
  nextFrame s = 0 /\ requests s = [].

Definition idle (m : Machine) : Prop := idleState (comp m) /\ tasks m = [].

(** [addToTranscript] for each of the entries, in order. *)
Definition appendAll (entries : list (jsstring * N * Speaker * jsstring))
    (s : State) : State :=
  fold_left
    (fun s e => let '(newId, now, sp, txt) := e in addToTranscript newId now sp txt s)
    entries s.

Definition isTeardown (e : Effect) : bool :=
  match e with ELeave _ | EDestroy _ => true | _ => false end.

(** ** The clock and the status line *)

(** [s.padStart(2, "0")] *)
Definition padStart2 (s : jsstring) : jsstring :=
  match s with
  | [] => lit "00"
  | [c] => [48%N; c]
  | _ => s
  end.

(** Lines 60-67, for a count of seconds that is a non-negative integer (below
    2^53, where the arithmetic of the source is exact). *)
Definition formatTime (seconds : N) : jsstring :=
  let hrs := (seconds / 3600)%N in
  let mins := ((seconds mod 3600) / 60)%N in
  let secs := (seconds mod 60)%N in
  padStart2 (of_N hrs) ++ lit ":" ++ padStart2 (of_N mins) ++ lit ":"
    ++ padStart2 (of_N secs).

(** Line 274. *)
Definition statusText (s : State) : jsstring :=
  if isConnecting s then lit "Connecting..." else lit "Connected".

(** Line 277. *)
Definition timeText (s : State) : jsstring :=
  if isConnecting s then lit "00:00:00" else formatTime (timer s).

(** *** Reading a clock back *)

Definition isDigit (c : N) : bool := N.leb 48 c && N.leb c 57.

Fixpoint parseDecAcc (acc : N) (s : jsstring) : option N :=
  match s with
  | [] => Some acc
  | c :: s' =>
      if isDigit c then parseDecAcc (acc * 10 + (c - 48))%N s' else None
  end.

(** The number a non-empty string of decimal digits denotes. *)
Definition parseDec (s : jsstring) : option N :=
  match s with
  | [] => None
  | _ => parseDecAcc 0 s
  end.

(** The fields of [s] between the occurrences of [sep]. *)
Fixpoint splitOn (sep : N) (s : jsstring) : list jsstring :=
  match s with
  | [] => [[]]
  | c :: s' =>
      if N.eqb c sep then [] :: splitOn sep s'
      else match splitOn sep s' with
           | field :: rest => (c :: field) :: rest
           | [] => [[c]]
           end
  end.

(** The seconds a clock [h:m:s] stands for. *)
Definition parseTime (s : jsstring) : option N :=
  match splitOn 58 s with
  | [h; m; sec] =>
      match parseDec h, parseDec m, parseDec sec with
      | Some h, Some m, Some sec => Some (h * 3600 + m * 60 + sec)%N
      | _, _, _ => None
      end
  | _ => None
  end.

(** The number a decimal numeral denotes, read from its first digit on. *)
Fixpoint evalUint (acc : N) (d : Decimal.uint) : N :=
  match d with
  | Decimal.Nil => acc
  | Decimal.D0 d => evalUint (acc * 10) d
  | Decimal.D1 d => evalUint (acc * 10 + 1) d
  | Decimal.D2 d => evalUint (acc * 10 + 2) d
  | Decimal.D3 d => evalUint (acc * 10 + 3) d
  | Decimal.D4 d => evalUint (acc * 10 + 4) d
  | Decimal.D5 d => evalUint (acc * 10 + 5) d
  | Decimal.D6 d => evalUint (acc * 10 + 6) d
  | Decimal.D7 d => evalUint (acc * 10 + 7) d
  | Decimal.D8 d => evalUint (acc * 10 + 8) d
  | Decimal.D9 d => evalUint (acc * 10 + 9) d
  end.

(** ** Further observations and invariants *)

Definition isSetLocalAudio (e : Effect) : bool :=
  match e with ESetLocalAudio _ _ => true | _ => false end.

(** The [setLocalAudio] calls made so far. *)
Definition audioCalls (s : State) : list Effect :=
  filter isSetLocalAudio (effects s).

Definition isToast (e : Effect) : bool :=
  match e with EToast _ _ _ => true | _ => false end.

(** The notifications shown so far. *)
Definition toasts (s : State) : list Effect := filter isToast (effects s).

(** The entry the participant-joined listener appends. *)
Definition isGreeting (e : TranscriptMessage) : Prop :=
  speaker e = ai /\ text e = lit "I am Farm Vaidya AI".

(** No text typed, no reply pending, and nothing in the transcript but
    greetings. *)
Definition quiet (s : State) : Prop :=
  inputText s = [] /\ timeouts s = 0 /\ Forall isGreeting (transcript s).

(** The first alias with a truthy value, as [a || b || c] picks it. *)
Definition firstTruthy (data : Json) (aliases : list string) : Value :=
  match find (fun k => truthy (prop data k)) aliases with
  | Some k => prop data k
  | None => None
  end.

(** An attempt fails without a toast when the promise it fails on rejects
    with undefined or null: line 217 cannot read the message. *)
Definition failsSilently (o : Outcomes) : bool :=
  match response o with
  | FetchRejectedBare => true
  | r => wellShaped r && match join o with RejectedBare => true | _ => false end
  end.

(** Where an attempt begun in [s0] stands, when nothing else runs in
    between: it holds the lock and [isConnecting] while it is suspended and
    has shown no toast; it has called [join] once it waits for it; and at
    its end it has either succeeded, still holding both, or has released
    both and shown one toast (none if it failed silently).  It never touches
    [isConnected]. *)
Definition attemptDuring (o : Outcomes) (s0 : State)
    (sk : State * option Cont) : Prop :=
  let s := fst sk in
  isConnected s = isConnected s0 /\
  match snd sk with
  | Some (AwaitOldLeave _) | Some (AwaitOldDestroy _) | Some (AwaitFetch _) =>
      connectLockRef s = true /\ isConnecting s = true /\
      toasts s = toasts s0 /\ joins s = joins s0
  | Some (AwaitJoin _) =>
      connectLockRef s = true /\ isConnecting s = true /\
      toasts s = toasts s0 /\
      List.length (joins s) = S (List.length (joins s0)) /\
      wellShaped (response o) = true
  | Some (AwaitEndLeave _) => False
  | None =>
      if succeeds o
      then connectLockRef s = true /\ isConnecting s = true /\
           toasts s = toasts s0 /\
           List.length (joins s) = S (List.length (joins s0))
      else connectLockRef s = false /\ isConnecting s = false /\
           List.length (toasts s)
           = List.length (toasts s0) + (if failsSilently o then 0 else 1) /\
           List.length (joins s)
           = List.length (joins s0)
             + (if wellShaped (response o) then 1 else 0)
  end.

Definition isDestroyCall (e : Effect) : bool :=
  match e with EDestroy _ => true | _ => false end.

(** The [destroy] calls made so far. *)
Definition destroyCalls (s : State) : list Effect :=
  filter isDestroyCall (effects s).

(** *** Frames addressed by the component *)

Definition isJoinOf (f : FrameId) (e : Effect) : bool :=
  match e with EJoin g _ _ => Nat.eqb f g | _ => false end.

(** Frame [f] was created and [join] was called on it, in a world with
    [frames] frames and the log [log]. *)
Definition frameJoinedAt (frames : nat) (log : list Effect) (f : FrameId) : Prop :=
  f < frames /\ existsb (isJoinOf f) log = true.

(** An SDK call is in order: [join] addresses a frame that was created;
    [leave], [destroy] and [setLocalAudio] address one that was also
    joined. *)
Definition effectOkAt (frames : nat) (log : list Effect) (e : Effect) : Prop :=
  match e with
  | ECreateFrame f | EJoin f _ _ => f < frames
  | ELeave f | EDestroy f | ESetLocalAudio f _ => frameJoinedAt frames log f
  | _ => True
  end.

(** The frame a suspended function will address is in order too. *)
Definition contOk (s : State) (c : Cont) : Prop :=
  match c with
  | AwaitFetch f => f < nextFrame s
  | AwaitJoin f | AwaitOldLeave f | AwaitOldDestroy f | AwaitEndLeave f =>
      frameJoinedAt (nextFrame s) (effects s) f
  end.

Definition framesOk (s : State) : Prop :=
  (forall f, callFrame s = Some f -> frameJoinedAt (nextFrame s) (effects s) f)
  /\ Forall (effectOkAt (nextFrame s) (effects s)) (effects s).

(** The world only grows: frames are never forgotten, the log never loses an
    entry. *)
Definition grows (s s' : State) : Prop :=
  nextFrame s <= nextFrame s' /\
  forall P, existsb P (effects s) = true -> existsb P (effects s') = true.

(** What a handler owes: it lets the world grow, keeps the frames in order,
    and suspends only on a frame in order. *)
Definition stepOk (s : State) (r : State * option Cont) : Prop :=
  grows s (fst r) /\ framesOk (fst r) /\
  match snd r with Some c => contOk (fst r) c | None => True end.

(** *** The lock along a run *)

(** The frames the suspended attempts have still to create. *)
Definition framesPending (ts : list Cont) : nat :=
  list_sum (map (fun c => framesToCome (Some c)) ts).

(** The lock is held before each of the steps [ls] taken from [m]. *)
Fixpoint lockHeldBefore (env : Env) (ls : list Label) (m : Machine) : bool :=
  match ls with
  | [] => true
  | l :: ls' => connectLockRef (comp m) && lockHeldBefore env ls' (step env l m)
  end.

(** ** Example data *)

Definition envOk : Env :=
  {| VITE_PIPECAT_ENDPOINT := None; VITE_PIPECAT_TOKEN := Some (lit "sk-1") |}.

Definition envNoToken : Env :=
  {| VITE_PIPECAT_ENDPOINT := None; VITE_PIPECAT_TOKEN := None |}.

Definition okData : Json :=
  JObj [(lit "dailyRoom", JStr (lit "https://x.daily.co/r"));
        (lit "dailyToken", JStr (lit "tok"))].

Definition allGood : Outcomes :=
  {| oldLeave := Resolved; oldDestroy := Resolved;
     response := HttpOk okData; join := Resolved |}.

Definition serverDown : Outcomes :=
  {| oldLeave := Resolved; oldDestroy := Resolved;
     response := HttpError 500 (lit "Internal Server Error") (lit "oops");
     join := Resolved |}.

Definition joinRejectedBare : Outcomes :=
  {| oldLeave := Resolved; oldDestroy := Resolved;
     response := HttpOk okData; join := RejectedBare |}.

(** A conversation held and ended: frame 0 is stored, nothing is in flight. *)
Definition afterConversation : Machine :=
  run envOk
    [ClickOpen; Deliver 0 (Response (HttpOk okData));
     JoinedMeeting 0; Deliver 0 (Settle Resolved);
     ClickEnd; Deliver 0 (Settle Resolved)] mounted.

(* ================================================================== *)
(** * Properties *)

#[global] Arguments lit : simpl never.
#[global] Arguments defaultEndpoint : simpl never.
#[global] Arguments authHeader : simpl never.
#[global] Arguments description : simpl never.

Ltac break_match :=
  match goal with
  | |- context [match ?x with _ => _ end] => destruct x eqn:?
  end.

Ltac break_var :=
  match goal with
  | |- context [match ?x with _ => _ end] => is_var x; destruct x
  end.

Ltac destruct_state s :=
  destruct s as [op cd cg mu tr cf ti inp lk tref eff nf ivs ni tos].

(** ** The re-entrancy guard *)

Lemma startConversation_guarded env s :
  connectLockRef s || isConnecting s || isConnected s = true ->
  startConversation env s = (s, None).
Proof. intros H. unfold startConversation. now rewrite H. Qed.

(** Without a credential the function ends in its [catch] block before any
    [await]. *)
Lemma startConversation_unconfigured env s :
  configured (VITE_PIPECAT_TOKEN env) = false ->
  connectLockRef s || isConnecting s || isConnected s = false ->
  startConversation env s
  = (catchBlock ConfigurationError
       (emit (EConsoleLog [CStr (lit "API Key provided:"); CBool false])
          (emit (EConsoleLog
                   [CStr (lit "Connecting to Pipecat endpoint:");
                    CStr match VITE_PIPECAT_ENDPOINT env with
                         | Some (c :: e) => c :: e
                         | _ => defaultEndpoint
                         end])
             (setIsConnecting true (setConnectLock true s)))),
     None).
Proof.
  intros Hc Hg. unfold startConversation. rewrite Hg.
  destruct env as [ep [[|c k]|]]; try discriminate Hc; reflexivity.
Qed.

(** ** What one step of an attempt does to the log, the lock and the frames *)

Ltac resume_cases c o :=
  destruct c; destruct o as [[|?|]|[?|? ? ?|[| | | | |]|]]; cbn;
  repeat match goal with
         | |- context [if ?b then _ else _] => destruct b eqn:?; cbn
         end.

Ltac log_simpl :=
  unfold requests, framesCreated, joins; cbn;
  repeat rewrite ?filter_app, ?length_app; cbn;
  rewrite ?app_nil_r, ?Nat.add_0_r.

Lemma resume_requests c o s :
  requests (fst (resume c o s)) = requests s.
Proof.
  resume_cases c o; unfold swallow;
    repeat break_match; log_simpl; reflexivity.
Qed.

Lemma resume_frames c o s :
  List.length (framesCreated (fst (resume c (outcomeFor o c) s)))
    + framesToCome (snd (resume c (outcomeFor o c) s))
  = List.length (framesCreated s) + framesToCome (Some c).
Proof.
  destruct o as [ol od r j].
  destruct c; cbn; unfold swallow;
    repeat (break_match; cbn); log_simpl; lia.
Qed.

Lemma resume_keeps_lock c o s c' :
  snd (resume c o s) = Some c' ->
  connectLockRef (fst (resume c o s)) = connectLockRef s.
Proof.
  resume_cases c o; unfold swallow; repeat (break_match; cbn);
    intros; try discriminate; reflexivity.
Qed.

Lemma resume_awaitsLeft c o s :
  awaitsLeft (snd (resume c (outcomeFor o c) s)) < awaitsLeft (Some c).
Proof.
  destruct o as [ol od r j].
  destruct c; cbn; repeat (break_match; cbn); lia.
Qed.

Lemma advance_requests n o sk :
  requests (fst (advance n o sk)) = requests (fst sk).
Proof.
  revert sk; induction n as [|n IH]; intros [s [c|]]; cbn; auto.
  rewrite IH. apply resume_requests.
Qed.

Lemma advance_frames n o sk :
  List.length (framesCreated (fst (advance n o sk)))
    + framesToCome (snd (advance n o sk))
  = List.length (framesCreated (fst sk)) + framesToCome (snd sk).
Proof.
  revert sk; induction n as [|n IH]; intros [s [c|]]; cbn; auto.
  rewrite IH. apply resume_frames.
Qed.

Lemma advance_keeps_lock n o sk :
  snd sk <> None ->
  snd (advance n o sk) <> None ->
  connectLockRef (fst (advance n o sk)) = connectLockRef (fst sk).
Proof.
  revert sk; induction n as [|n IH]; intros [s [c|]]; cbn; auto.
  intros _ H.
  destruct (snd (resume c (outcomeFor o c) s)) as [c'|] eqn:E.
  - rewrite IH; auto.
    + now apply resume_keeps_lock with c'.
    + rewrite E. discriminate.
  - exfalso. apply H. clear H.
    destruct (resume c (outcomeFor o c) s) as [s' k]. cbn in E. subst k.
    destruct n; reflexivity.
Qed.

Lemma advance_completes n o sk :
  awaitsLeft (snd sk) <= n -> snd (advance n o sk) = None.
Proof.
  revert sk; induction n as [|n IH]; intros [s [c|]]; cbn [advance snd]; auto.
  - destruct c; cbn; lia.
  - intros H. apply IH.
    pose proof (resume_awaitsLeft c o s). lia.
Qed.

Lemma advance_awaitsLeft n o sk :
  awaitsLeft (snd (advance n o sk)) <= awaitsLeft (snd sk).
Proof.
  revert sk; induction n as [|n IH]; intros [s [c|]]; cbn [advance snd]; auto.
  etransitivity; [apply IH|].
  pose proof (resume_awaitsLeft c o s). lia.
Qed.

(** The synchronous prefix of an attempt that passes the guard with a
    credential configured: one request, the lock taken, and the new frame
    created at once unless a previous frame has to be torn down first. *)
Lemma startConversation_begins env s :
  configured (VITE_PIPECAT_TOKEN env) = true ->
  connectLockRef s || isConnecting s || isConnected s = false ->
  let sk := startConversation env s in
  snd sk <> None /\
  connectLockRef (fst sk) = true /\
  List.length (requests (fst sk)) = S (List.length (requests s)) /\
  List.length (framesCreated (fst sk)) + framesToCome (snd sk)
    = S (List.length (framesCreated s)).
Proof.
  intros Hc Hg. unfold startConversation. rewrite Hg.
  destruct env as [ep [[|c k]|]]; try discriminate Hc.
  cbn. destruct (callFrame s); cbn; log_simpl;
    repeat split; try discriminate; lia.
Qed.

Lemma awaitsLeft_start env s : awaitsLeft (snd (startConversation env s)) <= 4.
Proof.
  unfold startConversation. repeat (break_match; cbn); lia.
Qed.

Lemma in_flight_configured env s o n :
  connectLockRef s || isConnecting s || isConnected s = false ->
  snd (advance n o (startConversation env s)) <> None ->
  configured (VITE_PIPECAT_TOKEN env) = true.
Proof.
  intros Hg H. destruct (configured (VITE_PIPECAT_TOKEN env)) eqn:Hc; auto.
  exfalso. apply H. rewrite startConversation_unconfigured by assumption.
  destruct n; reflexivity.
Qed.

(** With nothing but the first attempt's own [await]s in between: a second
    invocation that arrives while the first is suspended does nothing, and
    the two together issue exactly one request and create exactly one frame,
    however the awaited promises settle. *)
Lemma start_twice_uninterleaved env s :
  (connectLockRef s = true \/ isConnecting s = true \/ isConnected s = true ->
     startConversation env s = (s, None)) /\
  (connectLockRef s || isConnecting s || isConnected s = false ->
   forall (o : Outcomes) (n : nat),
     let first := advance n o (startConversation env s) in
     snd first <> None ->
     startConversation env (fst first) = (fst first, None) /\
     let final := advance 4 o first in
     snd final = None /\
     List.length (requests (fst final)) = S (List.length (requests s)) /\
     List.length (framesCreated (fst final)) = S (List.length (framesCreated s))).
Proof.
  split.
  - intros H. apply startConversation_guarded.
    destruct H as [H | [H | H]]; rewrite H;
      destruct (connectLockRef s), (isConnecting s); reflexivity.
  - intros Hg o n first Hfirst.
    assert (Hc := in_flight_configured env s o n Hg Hfirst).
    destruct (startConversation_begins env s Hc Hg) as (Hk & Hlock & Hreq & Hfr).
    split.
    + apply startConversation_guarded.
      unfold first. rewrite advance_keeps_lock; auto.
      now rewrite Hlock.
    + intros final.
      assert (Hdone : snd final = None).
      { apply advance_completes.
        etransitivity; [apply advance_awaitsLeft | apply awaitsLeft_start]. }
      split; [exact Hdone|]. split.
      * unfold final, first. now rewrite !advance_requests.
      * pose proof (advance_frames 4 o first) as H1.
        pose proof (advance_frames n o (startConversation env s)) as H2.
        fold first in H2. fold final in H1. rewrite Hdone in H1.
        cbn [framesToCome] in H1. cbv zeta in Hfr. lia.
Qed.

(** ** The Authorization header *)

Lemma authHeader_matches apiKey : matchesBearer (authHeader apiKey) = true.
Proof.
  unfold authHeader. destruct (matchesBearer apiKey) eqn:E; [exact E|].
  reflexivity.
Qed.

Lemma startConversation_request env s c k :
  VITE_PIPECAT_TOKEN env = Some (c :: k) ->
  connectLockRef s || isConnecting s || isConnected s = false ->
  exists endpoint,
    requests (fst (startConversation env s))
    = requests s ++ [EFetch endpoint (authHeader (c :: k))].
Proof.
  intros Hk Hg. unfold startConversation. rewrite Hg, Hk.
  eexists. cbn. destruct (callFrame s); log_simpl; reflexivity.
Qed.

(** C8, as the code has it.  The header of the request matches
    [/^Bearer\s+/i]: it begins with the word Bearer, in any letter case,
    followed by a white-space character.  A credential that matches already
    is sent unchanged; to any other, ["Bearer "] is prepended. *)
Theorem authorization_header_bearer env s c k :
  VITE_PIPECAT_TOKEN env = Some (c :: k) ->
  connectLockRef s || isConnecting s || isConnected s = false ->
  exists endpoint header,
    requests (fst (startConversation env s))
      = requests s ++ [EFetch endpoint header] /\
    matchesBearer header = true /\
    (matchesBearer (c :: k) = true -> header = c :: k) /\
    (matchesBearer (c :: k) = false -> header = lit "Bearer " ++ c :: k).
Proof.
  intros Hk Hg.
  destruct (startConversation_request env s c k Hk Hg) as [endpoint H].
  exists endpoint, (authHeader (c :: k)).
  split; [exact H|]. split; [apply authHeader_matches|].
  unfold authHeader. split; intros E; now rewrite E.
Qed.

Lemma authorization_header_bearer_witness :
  exists endpoint header,
    requests (fst (startConversation envOk initial))
      = requests initial ++ [EFetch endpoint header] /\
    matchesBearer header = true /\
    (matchesBearer (lit "sk-1") = true -> header = lit "sk-1") /\
    (matchesBearer (lit "sk-1") = false -> header = lit "Bearer " ++ lit "sk-1").
Proof.
  apply (authorization_header_bearer envOk initial 115%N (lit "k-1"));
    reflexivity.
Defined.

(** C8 as the specification words it fails: a credential spelt with a lower-case
    [bearer], or with a tab after [Bearer], is sent as it is, and the header
    does not begin with ["Bearer "]. *)
Lemma authorization_header_not_literal_prefix :
  let lower := lit "bearer abc" in
  let tabbed := lit "Bearer" ++ [9%N] ++ lit "abc" in
  requests (fst (startConversation
                   {| VITE_PIPECAT_ENDPOINT := None;
                      VITE_PIPECAT_TOKEN := Some lower |} initial))
    = [EFetch defaultEndpoint lower] /\
  startsWith (lit "Bearer ") lower = false /\
  requests (fst (startConversation
                   {| VITE_PIPECAT_ENDPOINT := None;
                      VITE_PIPECAT_TOKEN := Some tabbed |} initial))
    = [EFetch defaultEndpoint tabbed] /\
  startsWith (lit "Bearer ") tabbed = false /\
  strip_prefix_ci (lit "Bearer ") tabbed = None.
Proof. repeat split. Qed.

(** ** The shape of the response *)

(** A response other than [null] without a room URL, or without a token:
    the attempt ends in the error of line 202, [join] is not called and
    [isConnected] is left as it was. *)
Lemma missing_fields_shape_error s frame data :
  data <> JNull ->
  (prop data "dailyRoom" = None /\ prop data "room_url" = None
     /\ prop data "roomUrl" = None)
  \/ (prop data "dailyToken" = None /\ prop data "token" = None) ->
  let r := resume (AwaitFetch frame) (Response (HttpOk data)) s in
  snd r = None /\
  effects (fst r)
    = effects s ++
      [EConsoleError [CStr (lit "API Response:"); CJson data];
       EConsoleError [CExn ResponseShapeError];
       EToast (lit "Error")
         (lit "Missing room URL or token from API response") true] /\
  joins (fst r) = joins s /\
  isConnected (fst r) = isConnected s /\
  isConnecting (fst r) = false /\
  connectLockRef (fst r) = false.
Proof.
  intros Hnull H r. subst r.
  assert (E : negb (truthy (js_or (js_or (prop data "dailyRoom")
                                         (prop data "room_url"))
                                  (prop data "roomUrl")))
              || negb (truthy (js_or (prop data "dailyToken")
                                     (prop data "token"))) = true).
  { destruct H as [(H1 & H2 & H3) | (H1 & H2)].
    - rewrite H1, H2, H3. reflexivity.
    - rewrite H1, H2. apply orb_true_r. }
  destruct data; try congruence; cbn [resume]; rewrite E; cbn;
    log_simpl; rewrite <- ?app_assoc; repeat split; reflexivity.
Qed.

(** C3 at the response [null]: no alias is present, yet the attempt ends in
    the TypeError of the property read, not in the error of line 202, and
    the response is not logged.  [join] is not called and [isConnected]
    stays false. *)
Theorem null_response_is_not_shape_error :
  let before := run envOk [Start] mounted in
  let after := run envOk [Start; Deliver 0 (Response (HttpOk JNull))] mounted in
  tasks before = [AwaitFetch 0] /\
  prop JNull "dailyRoom" = None /\ prop JNull "room_url" = None /\
  prop JNull "roomUrl" = None /\
  prop JNull "dailyToken" = None /\ prop JNull "token" = None /\
  tasks after = [] /\
  effects (comp after)
    = effects (comp before) ++
      [EConsoleError [CExn NullPropertyError];
       EToast (lit "Error")
         (lit "Cannot read properties of null (reading 'dailyRoom')") true] /\
  description NullPropertyError <> description ResponseShapeError /\
  joins (comp after) = [] /\
  isConnected (comp after) = false.
Proof. vm_compute. repeat split; discriminate. Qed.

(** ** Ending the conversation *)

(** Without a stored frame, or when [leave] resolves, the widget ends up
    disconnected and closed. *)
Lemma endConversation_closes s :
  (callFrame s = None ->
     snd (endConversation s) = None /\
     isConnected (fst (endConversation s)) = false /\
     isOpen (fst (endConversation s)) = false) /\
  (forall old,
     callFrame s = Some old ->
     let suspended := endConversation s in
     snd suspended = Some (AwaitEndLeave old) /\
     let s' := fst (resume (AwaitEndLeave old) (Settle Resolved) (fst suspended)) in
     isConnected s' = false /\ isOpen s' = false).
Proof.
  unfold endConversation. split.
  - intros ->. cbn. auto.
  - intros old ->. cbn. auto.
Qed.

(** C4 where [leave] rejects: [endConversation] stops at line 223; lines 225
    and 226 do not run, and the widget stays connected and open. *)
Theorem endConversation_leave_rejected :
  let connectedRun :=
    [ClickOpen; Deliver 0 (Response (HttpOk okData));
     JoinedMeeting 0; Deliver 0 (Settle Resolved)] in
  let before := run envOk connectedRun mounted in
  let after :=
    run envOk [ClickEnd; Deliver 0 (Settle (Rejected None))] before in
  callFrame (comp before) = Some 0 /\
  isConnected (comp before) = true /\ isOpen (comp before) = true /\
  tasks after = [] /\
  isConnected (comp after) = true /\ isOpen (comp after) = true /\
  (forall s old msg,
      let s' := fst (resume (AwaitEndLeave old) (Settle (Rejected msg)) s) in
      isConnected s' = isConnected s /\ isOpen s' = isOpen s).
Proof. repeat split. Qed.

(** ** The stored frame *)

Lemma attempt_completes env o s : snd (attempt env o s) = None.
Proof. apply advance_completes, awaitsLeft_start. Qed.

Lemma resume_callFrameDuring o s0 s c :
  callFrameDuring o s0 (s, Some c) ->
  callFrameDuring o s0 (resume c (outcomeFor o c) s).
Proof.
  destruct o as [ol od r j]. unfold callFrameDuring, succeeds.
  destruct c; cbn [fst snd outcomeFor oldLeave oldDestroy response join].
  - intros [H1 H2]. destruct ol; cbn; auto.
  - intros [H1 H2]. destruct od; cbn; auto.
  - intros [H1 H2]. subst frame.
    destruct r as [?|? ? ?|data|]; cbn; auto.
    destruct data; cbn; auto;
      match goal with
      | |- context [if ?b then _ else _] => destruct b eqn:E
      end; cbn; auto.
  - intros (H1 & H2 & H3). subst frame. rewrite H3.
    destruct j; cbn; auto.
  - intros [].
Qed.

Lemma advance_callFrameDuring o s0 n sk :
  callFrameDuring o s0 sk -> callFrameDuring o s0 (advance n o sk).
Proof.
  revert sk; induction n as [|n IH]; intros [s [c|]]; cbn [advance]; auto.
  intros H. apply IH, resume_callFrameDuring, H.
Qed.

Lemma startConversation_callFrameDuring env o s :
  configured (VITE_PIPECAT_TOKEN env) = true ->
  connectLockRef s || isConnecting s || isConnected s = false ->
  callFrameDuring o s (startConversation env s).
Proof.
  intros Hc Hg. unfold startConversation. rewrite Hg.
  destruct env as [ep [[|c k]|]]; try discriminate Hc.
  unfold callFrameDuring. cbn.
  destruct (callFrame s) eqn:E; cbn; auto.
Qed.

(** An attempt with nothing in between.  [callFrame] becomes the new frame
    exactly when the attempt succeeds, which [join] resolving ends.  An
    attempt that fails for want of a credential leaves [callFrame] as it
    was; one that fails later leaves it null, the previous frame having been
    torn down and cleared on the way; and while the attempt is in flight
    [callFrame] is the previous value or null. *)
Lemma callFrame_after_attempt_alone env o s :
  connectLockRef s || isConnecting s || isConnected s = false ->
  snd (attempt env o s) = None /\
  callFrame (fst (attempt env o s))
    = (if configured (VITE_PIPECAT_TOKEN env)
       then if succeeds o then Some (nextFrame s) else None
       else callFrame s) /\
  (forall n,
      snd (advance n o (startConversation env s)) <> None ->
      let now := callFrame (fst (advance n o (startConversation env s))) in
      now = callFrame s \/ now = None).
Proof.
  intros Hg. split; [apply attempt_completes|].
  destruct (configured (VITE_PIPECAT_TOKEN env)) eqn:Hc.
  - split.
    + pose proof (advance_callFrameDuring o s 4 _
                    (startConversation_callFrameDuring env o s Hc Hg)) as H.
      unfold callFrameDuring in H. fold (attempt env o s) in H.
      now rewrite attempt_completes in H.
    + intros n Hn now.
      pose proof (advance_callFrameDuring o s n _
                    (startConversation_callFrameDuring env o s Hc Hg)) as H.
      unfold callFrameDuring in H. fold now in H.
      destruct (snd (advance n o (startConversation env s))) as [[]|];
        intuition.
  - assert (E := startConversation_unconfigured env s Hc Hg).
    unfold attempt. rewrite E. split; [reflexivity|].
    intros n H. exfalso. apply H. destruct n; reflexivity.
Qed.

(** C10 as the specification words it fails: after a conversation, [callFrame] holds
    frame 0; the next attempt tears it down, clears [callFrame], and then
    fails on the server's answer: [callFrame] is null, not what it was. *)
Lemma failed_attempt_clears_callFrame :
  let conversation :=
    [ClickOpen; Deliver 0 (Response (HttpOk okData));
     JoinedMeeting 0; Deliver 0 (Settle Resolved);
     ClickEnd; Deliver 0 (Settle Resolved)] in
  let before := run envOk conversation mounted in
  let failing :=
    [ClickOpen; Deliver 0 (Settle Resolved); Deliver 0 (Settle Resolved);
     Deliver 0 (Response (HttpError 500 (lit "Internal Server Error") (lit "oops")))] in
  let after := run envOk failing before in
  callFrame (comp before) = Some 0 /\
  connectLockRef (comp before) || isConnecting (comp before)
    || isConnected (comp before) = false /\
  tasks before = [] /\
  tasks after = [] /\
  last (effects (comp after)) (EConsoleLog [])
    = EToast (lit "Error")
        (lit "API request failed: 500 Internal Server Error - oops") true /\
  callFrame (comp after) = None /\
  callFrame (comp after) <> callFrame (comp before).
Proof. vm_compute. repeat split; discriminate. Qed.

(** ** The machine and the transition relation *)

Lemma comp_step env l m :
  comp (step env l m) = fst (commit env (comp m) (fst (handle env l m))).
Proof.
  unfold step. destruct (handle env l m) as [s1 ts]. cbn [fst].
  destruct (commit env (comp m) s1) as [s2 k]. reflexivity.
Qed.

Lemma onFrame_cases f h s :
  (f < nextFrame s /\ onFrame f h s = h s) \/ onFrame f h s = s.
Proof.
  unfold onFrame. destruct (Nat.ltb f (nextFrame s)) eqn:E; auto.
  left. split; auto. now apply Nat.ltb_lt.
Qed.

Lemma handle_transition env l m :
  transition env (comp m) (fst (handle env l m)).
Proof.
  destruct l; cbn [handle fst]; try constructor.
  - destruct (endConversation (comp m)) eqn:E.
    change s with (fst (s, o)). rewrite <- E. constructor.
  - destruct (startConversation env (comp m)) eqn:E.
    change s with (fst (s, o)). rewrite <- E. constructor.
  - destruct (onFrame_cases f onJoinedMeeting (comp m)) as [[H ->] | ->];
      econstructor; eauto.
  - destruct (onFrame_cases f onLeftMeeting (comp m)) as [[H ->] | ->];
      econstructor; eauto.
  - destruct (onFrame_cases f onError (comp m)) as [[H ->] | ->];
      econstructor; eauto.
  - destruct (onFrame_cases f (onParticipantJoined user_name newId now) (comp m))
      as [[H ->] | ->]; econstructor; eauto.
  - destruct (onFrame_cases f onActiveSpeakerChange (comp m)) as [[H ->] | ->];
      constructor.
  - destruct (nth_error (tasks m) task) as [c|]; [|constructor].
    destruct (resume c o (comp m)) eqn:E.
    change s with (fst (s, o0)). rewrite <- E. constructor.
Qed.

Lemma run_snoc env ls l m : run env (ls ++ [l]) m = step env l (run env ls m).
Proof. unfold run. now rewrite fold_left_app. Qed.

(** An invariant of the machine: true when mounted, kept by every step. *)
Lemma run_invariant env (P : Machine -> Prop) :
  P mounted ->
  (forall l m, P m -> P (step env l m)) ->
  forall ls, P (run env ls mounted).
Proof.
  intros H0 Hstep ls. induction ls as [|l ls IH] using rev_ind; [exact H0|].
  rewrite run_snoc. now apply Hstep.
Qed.

Ltac break_inner :=
  first
    [ break_var
    | match goal with
      | |- context [match ?x with _ => _ end] =>
          lazymatch x with
          | context [match _ with _ => _ end] => fail
          | _ => destruct x eqn:?
          end
      end ].

Ltac unfold_handlers :=
  unfold endConversation, toggleMute, startConversation, handleSendMessage,
    mockReply, tick, onJoinedMeeting, onLeftMeeting, onError,
    onParticipantJoined, onActiveSpeakerChange, addToTranscript, catchBlock,
    createFrameAndListen, swallow, autoConnectEffect, timerEffect,
    timerCleanup, clearTimerRef, clearInterval.

(** ** [isConnecting] and [isConnected] exclude each other *)

Lemma transition_exclusive env s s' :
  transition env s s' -> exclusive s -> exclusive s'.
Proof.
  unfold exclusive. intros T H.
  destruct T; try exact H;
    try match goal with |- context [resume ?c ?o _] => resume_cases c o end;
    unfold_handlers; destruct_state s; cbn in *;
    destruct cg, cd, lk; try discriminate; cbn;
    repeat (break_inner; cbn); try reflexivity.
Qed.

Lemma commit_fst env b a :
  fst (commit env b a)
  = let connectedChanged := negb (Bool.eqb (isConnected b) (isConnected a)) in
    let openChanged := negb (Bool.eqb (isOpen b) (isOpen a)) in
    let s := if connectedChanged then timerCleanup a else a in
    let s := if openChanged then fst (autoConnectEffect env s) else s in
    if connectedChanged then timerEffect s else s.
Proof.
  unfold commit.
  destruct (negb (Bool.eqb (isConnected b) (isConnected a)));
    destruct (negb (Bool.eqb (isOpen b) (isOpen a))); cbn;
    try reflexivity;
    match goal with |- context [autoConnectEffect ?e ?s] =>
      destruct (autoConnectEffect e s) end; reflexivity.
Qed.

Lemma commit_same env b a :
  isConnected b = isConnected a -> isOpen b = isOpen a ->
  commit env b a = (a, None).
Proof.
  intros H1 H2. unfold commit. rewrite H1, H2, !Bool.eqb_reflx. reflexivity.
Qed.

(** What the synchronous prefix of [startConversation] leaves alone. *)
Lemma startConversation_frame env s :
  let s' := fst (startConversation env s) in
  isOpen s' = isOpen s /\ isConnected s' = isConnected s /\
  isMuted s' = isMuted s /\ transcript s' = transcript s /\
  timer s' = timer s /\ inputText s' = inputText s /\
  timerRef s' = timerRef s /\ intervals s' = intervals s /\
  nextInterval s' = nextInterval s /\ timeouts s' = timeouts s /\
  callFrame s' = callFrame s.
Proof.
  unfold startConversation.
  destruct (connectLockRef s || isConnecting s || isConnected s);
    [cbn; repeat split|].
  destruct (VITE_PIPECAT_TOKEN env) as [[|c k]|]; cbn; try (repeat split; fail).
  destruct (callFrame s) eqn:E; cbn; repeat split; auto.
Qed.

Lemma autoConnectEffect_frame env s :
  let s' := fst (autoConnectEffect env s) in
  isOpen s' = isOpen s /\ isConnected s' = isConnected s /\
  isMuted s' = isMuted s /\ transcript s' = transcript s /\
  timer s' = timer s /\ inputText s' = inputText s /\
  timerRef s' = timerRef s /\ intervals s' = intervals s /\
  nextInterval s' = nextInterval s /\ timeouts s' = timeouts s /\
  callFrame s' = callFrame s.
Proof.
  unfold autoConnectEffect.
  destruct (isOpen s && negb (isConnected s) && negb (isConnecting s)).
  - apply startConversation_frame.
  - cbn. repeat split.
Qed.

Lemma startConversation_exclusive env s :
  exclusive s -> exclusive (fst (startConversation env s)).
Proof. apply transition_exclusive with env. constructor. Qed.

Lemma timer_effects_keep_flags s :
  isConnecting (timerCleanup s) = isConnecting s /\
  isConnected (timerCleanup s) = isConnected s /\
  isConnecting (timerEffect s) = isConnecting s /\
  isConnected (timerEffect s) = isConnected s.
Proof.
  unfold timerCleanup, timerEffect, clearTimerRef.
  destruct (timerRef s), (isConnected s) eqn:E; cbn; auto.
Qed.

Lemma commit_exclusive env b a :
  exclusive a -> exclusive (fst (commit env b a)).
Proof.
  intros H. rewrite commit_fst. cbv zeta.
  set (s1 := if negb (Bool.eqb (isConnected b) (isConnected a))
             then timerCleanup a else a).
  assert (H1 : exclusive s1).
  { unfold s1, exclusive.
    destruct (negb (Bool.eqb (isConnected b) (isConnected a))); auto.
    destruct (timer_effects_keep_flags a) as (-> & -> & _). exact H. }
  set (s2 := if negb (Bool.eqb (isOpen b) (isOpen a))
             then fst (autoConnectEffect env s1) else s1).
  assert (H2 : exclusive s2).
  { unfold s2. destruct (negb (Bool.eqb (isOpen b) (isOpen a))); auto.
    unfold autoConnectEffect.
    destruct (isOpen s1 && negb (isConnected s1) && negb (isConnecting s1));
      auto using startConversation_exclusive. }
  destruct (negb (Bool.eqb (isConnected b) (isConnected a))); auto.
  unfold exclusive.
  destruct (timer_effects_keep_flags s2) as (_ & _ & -> & ->). exact H2.
Qed.

Lemma step_exclusive env l m :
  exclusive (comp m) -> exclusive (comp (step env l m)).
Proof.
  intros H. rewrite comp_step. apply commit_exclusive.
  eapply transition_exclusive; [apply handle_transition | exact H].
Qed.

(** C6.  In every state the component reaches from its mounting, by clicks,
    by [startConversation] and [endConversation] with their [await]s
    settling in any way, by the listeners of the frames (joined, left,
    error, participant joined) and by timer callbacks, [isConnecting] and
    [isConnected] are not both true. *)
Theorem connecting_connected_exclusive env ls :
  let s := comp (run env ls mounted) in
  isConnecting s && isConnected s = false.
Proof.
  apply (run_invariant env (fun m => exclusive (comp m))).
  - reflexivity.
  - intros l m. apply step_exclusive.
Qed.

(** ** The timer *)

Lemma remove_self i : remove Nat.eq_dec i [i] = [].
Proof. cbn. destruct (Nat.eq_dec i i); congruence. Qed.

Lemma resume_timer c o s :
  let s' := fst (resume c o s) in
  timer s' = timer s /\ intervals s' = intervals s /\ timerRef s' = timerRef s.
Proof.
  resume_cases c o; unfold swallow; repeat (break_var; cbn); auto.
Qed.

(** Only the interval callback touches the timer, the intervals or
    [timerRef]. *)
Lemma transition_timer env s s' :
  transition env s s' ->
  (timer s' = timer s /\ intervals s' = intervals s /\ timerRef s' = timerRef s)
  \/ exists i, s' = tick i s.
Proof.
  intros T. destruct T; try (right; eexists; reflexivity); left;
    try apply resume_timer;
    try (destruct (startConversation_frame env s) as
            (_ & _ & _ & _ & ? & _ & ? & ? & _); auto; fail);
    unfold_handlers; repeat (break_inner; cbn); auto.
Qed.

Lemma tick_timerOk i s : timerInv s -> timerOk (isConnected s) (tick i s).
Proof.
  unfold timerInv, timerOk, tick. destruct (isConnected s).
  - intros (j & H1 & H2). destruct (existsb (Nat.eqb i) (intervals s));
      cbn; eauto.
  - intros (H1 & H2). rewrite H2. cbn. auto.
Qed.

Lemma transition_timerOk env s s' :
  transition env s s' -> timerInv s -> timerOk (isConnected s) s'.
Proof.
  intros T H. destruct (transition_timer env s s' T) as [(H1 & H2 & H3) | [i ->]].
  - unfold timerInv, timerOk in *. rewrite H1, H2, H3. exact H.
  - now apply tick_timerOk.
Qed.

Lemma timerOk_ext c s s' :
  timer s' = timer s -> intervals s' = intervals s -> timerRef s' = timerRef s ->
  timerOk c s -> timerOk c s'.
Proof. unfold timerOk. intros -> -> ->. auto. Qed.

Lemma timerEffect_timerInv s : intervals s = [] -> timerInv (timerEffect s).
Proof.
  unfold timerInv, timerOk, timerEffect, clearTimerRef, clearInterval.
  intros E. destruct (isConnected s) eqn:Ec; cbn; rewrite ?Ec, ?E.
  - eexists. split; reflexivity.
  - destruct (timerRef s); cbn; rewrite ?Ec, ?E; auto.
Qed.

(** The effects re-establish the invariant for the new connection status. *)
Lemma commit_timerInv env b a :
  timerOk (isConnected b) a -> timerInv (fst (commit env b a)).
Proof.
  intros H. rewrite commit_fst. cbv zeta.
  destruct (Bool.eqb (isConnected b) (isConnected a)) eqn:Ec; cbn [negb].
  - apply Bool.eqb_prop in Ec. rewrite Ec in H.
    destruct (negb (Bool.eqb (isOpen b) (isOpen a))); [|exact H].
    destruct (autoConnectEffect_frame env a) as
      (_ & Hc & _ & _ & Ht & _ & Hr & Hi & _).
    unfold timerInv. rewrite Hc. now apply timerOk_ext with a.
  - set (s1 := timerCleanup a).
    set (s2 := if negb (Bool.eqb (isOpen b) (isOpen a))
               then fst (autoConnectEffect env s1) else s1).
    assert (E2 : isConnected s2 = isConnected a /\ timer s2 = timer s1 /\
                 intervals s2 = intervals s1 /\ timerRef s2 = timerRef s1 /\
                 nextInterval s2 = nextInterval s1).
    { assert (isConnected s1 = isConnected a) as E1
        by apply timer_effects_keep_flags.
      unfold s2. destruct (negb (Bool.eqb (isOpen b) (isOpen a))).
      - destruct (autoConnectEffect_frame env s1) as
          (_ & Hc & _ & _ & Ht & _ & Hr & Hi & Hn & _).
        rewrite Hc, Ht, Hr, Hi, Hn. auto.
      - auto. }
    destruct E2 as (Hc & Ht & Hi & Hr & Hn).
    apply timerEffect_timerInv. rewrite Hi.
    unfold s1, timerCleanup, clearTimerRef, clearInterval, timerOk in *.
    destruct (isConnected b).
    + destruct H as (i & H1 & H2). rewrite H1, H2.
      cbn [intervals setIntervals]. apply remove_self.
    + destruct H as (H1 & H2).
      destruct (timerRef a); cbn; rewrite ?H2; reflexivity.
Qed.

Lemma step_timerInv env l m :
  timerInv (comp m) -> timerInv (comp (step env l m)).
Proof.
  intros H. rewrite comp_step. apply commit_timerInv.
  eapply transition_timerOk; [apply handle_transition | exact H].
Qed.

Lemma run_timerInv env ls : timerInv (comp (run env ls mounted)).
Proof.
  apply (run_invariant env (fun m => timerInv (comp m))).
  - split; reflexivity.
  - intros l m. apply step_timerInv.
Qed.

Lemma step_tick env i m :
  In i (intervals (comp m)) ->
  comp (step env (Tick i) m) = setTimer (timer (comp m) + 1) (comp m).
Proof.
  intros H. rewrite comp_step. cbn [handle fst]. unfold tick.
  assert (E : existsb (Nat.eqb i) (intervals (comp m)) = true).
  { apply existsb_exists. exists i. split; auto. apply Nat.eqb_refl. }
  rewrite E. now rewrite commit_same.
Qed.

Lemma run_ticks env i n m :
  In i (intervals (comp m)) ->
  timer (comp (run env (repeat (Tick i) n) m)) = (timer (comp m) + N.of_nat n)%N
  /\ intervals (comp (run env (repeat (Tick i) n) m)) = intervals (comp m).
Proof.
  revert m. induction n as [|n IH]; intros m H.
  - cbn. split; [lia | reflexivity].
  - cbn [repeat run fold_left]. fold (run env (repeat (Tick i) n) (step env (Tick i) m)).
    assert (E := step_tick env i m H).
    destruct (IH (step env (Tick i) m)) as [H1 H2].
    { rewrite E. exact H. }
    rewrite H1, H2, E. cbn. split; [lia | reflexivity].
Qed.

Lemma step_joined env f m :
  f < nextFrame (comp m) ->
  isConnected (comp (step env (JoinedMeeting f) m)) = true /\
  isConnecting (comp (step env (JoinedMeeting f) m)) = false /\
  timer (comp (step env (JoinedMeeting f) m)) = timer (comp m).
Proof.
  intros H. rewrite comp_step, commit_fst. cbn [handle fst]. unfold onFrame.
  apply Nat.ltb_lt in H. rewrite H.
  replace (isOpen (onJoinedMeeting (comp m))) with (isOpen (comp m))
    by reflexivity.
  rewrite Bool.eqb_reflx. cbv zeta. cbn [negb].
  destruct (negb (Bool.eqb (isConnected (comp m))
                    (isConnected (onJoinedMeeting (comp m))))).
  - unfold timerEffect, timerCleanup, clearTimerRef.
    destruct (timerRef (onJoinedMeeting (comp m))); cbn; auto.
  - cbn. auto.
Qed.

(** C5.  When the joined-meeting listener of a frame runs, [isConnected]
    becomes true and [isConnecting] false.  If the component was not
    connected, the timer is 0 at that moment and one interval runs, and after
    [n] callbacks of that interval the timer shows [n].  Every callback of a
    running interval adds exactly 1, and an interval runs only while
    connected.  After any step that leaves the component not connected, the
    timer is 0 and no interval runs. *)
Theorem timer_follows_connection env ls f :
  let m := run env ls mounted in
  f < nextFrame (comp m) ->
  let m' := step env (JoinedMeeting f) m in
  (isConnected (comp m') = true /\ isConnecting (comp m') = false) /\
  (isConnected (comp m) = false ->
     timer (comp m') = 0%N /\
     exists i, intervals (comp m') = [i] /\
       forall n, timer (comp (run env (repeat (Tick i) n) m')) = N.of_nat n) /\
  (forall i, In i (intervals (comp m)) ->
     isConnected (comp m) = true /\
     timer (comp (step env (Tick i) m)) = (timer (comp m) + 1)%N) /\
  (forall l, isConnected (comp (step env l m)) = false ->
     timer (comp (step env l m)) = 0%N /\ intervals (comp (step env l m)) = []).
Proof.
  intros m Hf m'.
  destruct (step_joined env f m Hf) as (Hc & Hg & Ht).
  fold m' in Hc, Hg, Ht.
  assert (Hinv : timerInv (comp m)) by apply run_timerInv.
  assert (Hinv' : timerInv (comp m')) by now apply step_timerInv.
  assert (Hstep : forall l, timerInv (comp (step env l m)))
    by (intros l; now apply step_timerInv).
  unfold timerInv, timerOk in Hinv, Hinv', Hstep.
  rewrite Hc in Hinv'. destruct Hinv' as (i & _ & Hi).
  split; [auto|]. split; [|split].
  - intros Hd. rewrite Hd in Hinv. destruct Hinv as [Ht0 _].
    split; [congruence|]. exists i. split; [exact Hi|].
    intros n. destruct (run_ticks env i n m') as [H1 _].
    { rewrite Hi. now left. }
    rewrite H1, Ht, Ht0. lia.
  - intros j Hj. split; [|now rewrite step_tick].
    destruct (isConnected (comp m)); auto.
    destruct Hinv as [_ E]. rewrite E in Hj. destruct Hj.
  - intros l Hl. specialize (Hstep l). rewrite Hl in Hstep. exact Hstep.
Qed.

Lemma timer_follows_connection_witness :
  let m := run envOk [Start] mounted in
  let m' := step envOk (JoinedMeeting 0) m in
  (isConnected (comp m') = true /\ isConnecting (comp m') = false) /\
  (isConnected (comp m) = false ->
     timer (comp m') = 0%N /\
     exists i, intervals (comp m') = [i] /\
       forall n, timer (comp (run envOk (repeat (Tick i) n) m')) = N.of_nat n) /\
  (forall i, In i (intervals (comp m)) ->
     isConnected (comp m) = true /\
     timer (comp (step envOk (Tick i) m)) = (timer (comp m) + 1)%N) /\
  (forall l, isConnected (comp (step envOk l m)) = false ->
     timer (comp (step envOk l m)) = 0%N /\ intervals (comp (step envOk l m)) = []).
Proof.
  apply (timer_follows_connection envOk [Start] 0).
  vm_compute. lia.
Defined.

(** ** The transcript *)

Lemma appendAll_transcript entries s :
  transcript (appendAll entries s)
  = transcript s ++
    map (fun e => let '(newId, now, sp, txt) := e in
                  {| id := newId; speaker := sp; text := txt; timestamp := now |})
        entries.
Proof.
  revert s. induction entries as [|[[[newId now] sp] txt] entries IH]; intros s.
  - cbn. now rewrite app_nil_r.
  - cbn [appendAll fold_left map]. fold (appendAll entries).
    rewrite IH. cbn. now rewrite <- app_assoc.
Qed.

Lemma resume_transcript c o s : transcript (fst (resume c o s)) = transcript s.
Proof.
  resume_cases c o; unfold swallow; repeat (break_var; cbn); auto.
Qed.

Lemma transition_transcript env s s' :
  transition env s s' -> exists added, transcript s' = transcript s ++ added.
Proof.
  intros T.
  destruct T;
    try (exists []; rewrite app_nil_r;
         first [ reflexivity
               | apply resume_transcript
               | apply startConversation_frame
               | unfold_handlers; repeat (break_inner; cbn); reflexivity ]).
  - unfold handleSendMessage. destruct (blank (inputText s)).
    + exists []. now rewrite app_nil_r.
    + eexists. reflexivity.
  - unfold mockReply. destruct (timeouts s).
    + exists []. now rewrite app_nil_r.
    + eexists. reflexivity.
  - unfold onParticipantJoined. destruct (Js.eqb user_name (lit "Chatbot")).
    + eexists. reflexivity.
    + exists []. now rewrite app_nil_r.
Qed.

Lemma timer_effects_keep_transcript s :
  transcript (timerCleanup s) = transcript s /\
  transcript (timerEffect s) = transcript s.
Proof.
  unfold timerCleanup, timerEffect, clearTimerRef.
  destruct (timerRef s), (isConnected s); cbn; auto.
Qed.

Lemma commit_transcript env b a : transcript (fst (commit env b a)) = transcript a.
Proof.
  rewrite commit_fst. cbv zeta.
  set (s1 := if negb (Bool.eqb (isConnected b) (isConnected a))
             then timerCleanup a else a).
  assert (E1 : transcript s1 = transcript a).
  { unfold s1. destruct (negb (Bool.eqb (isConnected b) (isConnected a)));
      [apply timer_effects_keep_transcript | reflexivity]. }
  set (s2 := if negb (Bool.eqb (isOpen b) (isOpen a))
             then fst (autoConnectEffect env s1) else s1).
  assert (E2 : transcript s2 = transcript a).
  { unfold s2. destruct (negb (Bool.eqb (isOpen b) (isOpen a))); [|exact E1].
    rewrite <- E1. apply autoConnectEffect_frame. }
  destruct (negb (Bool.eqb (isConnected b) (isConnected a))); [|exact E2].
  rewrite <- E2. apply timer_effects_keep_transcript.
Qed.

(** C9.  Appending N entries with [addToTranscript] to the empty transcript
    gives a transcript of N entries, which carry, in the order of their
    insertion, the speakers and texts they were appended with.  No step of
    the component removes or changes an entry: the transcript after a step
    is the transcript before it, followed by what the step appended. *)
Theorem transcript_append_only :
  (forall entries : list (jsstring * N * Speaker * jsstring),
      let t := transcript (appendAll entries initial) in
      List.length t = List.length entries /\
      map (fun e => (speaker e, text e)) t
        = map (fun e => let '(_, _, sp, txt) := e in (sp, txt)) entries) /\
  (forall env l m,
      exists added,
        transcript (comp (step env l m)) = transcript (comp m) ++ added).
Proof.
  split.
  - intros entries t. unfold t. rewrite appendAll_transcript. cbn [transcript initial app].
    rewrite length_map, map_map. split; [reflexivity|].
    apply map_ext. now intros [[[? ?] ?] ?].
  - intros env l m. rewrite comp_step, commit_transcript.
    apply transition_transcript with env, handle_transition.
Qed.

(** ** Without a credential *)

Lemma idleState_guard s :
  idleState s -> connectLockRef s || isConnecting s || isConnected s = false.
Proof. intros (-> & -> & -> & _). reflexivity. Qed.

Lemma startConversation_idle env s :
  configured (VITE_PIPECAT_TOKEN env) = false ->
  idleState s ->
  idleState (fst (startConversation env s)) /\
  snd (startConversation env s) = None.
Proof.
  intros Hc H. rewrite startConversation_unconfigured;
    auto using idleState_guard.
  destruct H as (H1 & H2 & H3 & H4 & H5 & H6).
  unfold idleState. log_simpl. repeat split; auto.
Qed.

Lemma timer_effects_idle s :
  idleState s -> idleState (timerCleanup s) /\ idleState (timerEffect s).
Proof.
  unfold idleState, timerCleanup, timerEffect, clearTimerRef, requests.
  intros (H1 & H2 & H3 & H4 & H5 & H6).
  rewrite H3. destruct (timerRef s); cbn; auto 10.
Qed.

Lemma autoConnectEffect_idle env s :
  configured (VITE_PIPECAT_TOKEN env) = false ->
  idleState s ->
  idleState (fst (autoConnectEffect env s)) /\
  snd (autoConnectEffect env s) = None.
Proof.
  intros Hc H. unfold autoConnectEffect.
  destruct (isOpen s && negb (isConnected s) && negb (isConnecting s)).
  - now apply startConversation_idle.
  - auto.
Qed.

Lemma commit_idle env b a :
  configured (VITE_PIPECAT_TOKEN env) = false ->
  idleState a ->
  idleState (fst (commit env b a)) /\ snd (commit env b a) = None.
Proof.
  intros Hc H. unfold commit.
  set (s1 := if negb (Bool.eqb (isConnected b) (isConnected a))
             then timerCleanup a else a).
  assert (H1 : idleState s1).
  { unfold s1. destruct (negb (Bool.eqb (isConnected b) (isConnected a)));
      [now apply timer_effects_idle | exact H]. }
  destruct (negb (Bool.eqb (isOpen b) (isOpen a))).
  - destruct (autoConnectEffect_idle env s1 Hc H1) as [H2 H3].
    destruct (autoConnectEffect env s1) as [s2 k]. cbn in H2, H3. subst k.
    destruct (negb (Bool.eqb (isConnected b) (isConnected a))); cbn;
      split; auto. now apply timer_effects_idle.
  - destruct (negb (Bool.eqb (isConnected b) (isConnected a))); cbn;
      split; auto. now apply timer_effects_idle.
Qed.

Lemma handle_idle env l m :
  configured (VITE_PIPECAT_TOKEN env) = false ->
  idle m ->
  idleState (fst (handle env l m)) /\ snd (handle env l m) = [].
Proof.
  intros Hc [H Ht]. destruct m as [s ts]. cbn in H, Ht. subst ts.
  destruct l; cbn [handle comp tasks].
  - destruct H as (H1 & H2 & H3 & H4 & H5 & H6). cbn. unfold idleState. auto 10.
  - destruct H as (H1 & H2 & H3 & H4 & H5 & H6).
    unfold endConversation. rewrite H4. cbn. unfold idleState. auto 10.
  - destruct H as (H1 & H2 & H3 & H4 & H5 & H6).
    unfold toggleMute. rewrite H4. cbn. unfold idleState. auto 10.
  - destruct (startConversation_idle env s Hc H) as [H1 H2].
    destruct (startConversation env s) as [s' k]. cbn in *. now subst k.
  - destruct H as (H1 & H2 & H3 & H4 & H5 & H6).
    unfold handleSendMessage. destruct (blank (inputText s)); cbn;
      unfold idleState; auto 10.
  - destruct H as (H1 & H2 & H3 & H4 & H5 & H6).
    unfold mockReply. destruct (timeouts s); cbn; unfold idleState; auto 10.
  - destruct H as (H1 & H2 & H3 & H4 & H5 & H6).
    unfold tick. destruct (existsb (Nat.eqb i) (intervals s)); cbn;
      unfold idleState; auto 10.
  - unfold onFrame. destruct H as (H1 & H2 & H3 & H4 & H5 & H6).
    rewrite H5. cbn. unfold idleState. auto 10.
  - unfold onFrame. destruct H as (H1 & H2 & H3 & H4 & H5 & H6).
    rewrite H5. cbn. unfold idleState. auto 10.
  - unfold onFrame. destruct H as (H1 & H2 & H3 & H4 & H5 & H6).
    rewrite H5. cbn. unfold idleState. auto 10.
  - unfold onFrame. destruct H as (H1 & H2 & H3 & H4 & H5 & H6).
    rewrite H5. cbn. unfold idleState. auto 10.
  - unfold onFrame. destruct H as (H1 & H2 & H3 & H4 & H5 & H6).
    rewrite H5. cbn. unfold idleState. auto 10.
  - destruct task; cbn; auto.
Qed.

Lemma step_idle env l m :
  configured (VITE_PIPECAT_TOKEN env) = false -> idle m -> idle (step env l m).
Proof.
  intros Hc H. destruct (handle_idle env l m Hc H) as [H1 H2].
  unfold step. destruct (handle env l m) as [s1 ts]. cbn in H1, H2. subst ts.
  destruct (commit_idle env (comp m) s1 Hc H1) as [H3 H4].
  destruct (commit env (comp m) s1) as [s2 k]. cbn in H3, H4. subst k.
  split; [exact H3 | reflexivity].
Qed.

Lemma run_idle env ls :
  configured (VITE_PIPECAT_TOKEN env) = false -> idle (run env ls mounted).
Proof.
  intros Hc. apply (run_invariant env idle).
  - repeat split.
  - intros l m. now apply step_idle.
Qed.

(** C2.  With no credential configured (the setting undefined or empty), in
    every state the component reaches, [startConversation] ends at once, in
    its [catch] block, with the error of line 107: it is logged and shown in
    a toast.  No request has been issued, none is, and afterwards
    [isConnecting] is false and the lock is released. *)
Theorem no_credential_configuration_error env ls :
  configured (VITE_PIPECAT_TOKEN env) = false ->
  let s := comp (run env ls mounted) in
  let s' := fst (startConversation env s) in
  snd (startConversation env s) = None /\
  (exists logged,
      effects s' = effects s ++ logged ++
        [EConsoleError [CExn ConfigurationError];
         EToast (lit "Error")
           (lit "VITE_PIPECAT_TOKEN is not configured in .env file") true]
      /\ filter isFetch logged = []) /\
  requests s' = [] /\
  isConnecting s' = false /\
  connectLockRef s' = false.
Proof.
  intros Hc s s'.
  destruct (run_idle env ls Hc) as [H _]. fold s in H.
  destruct (startConversation_idle env s Hc H) as [Hi Hk]. fold s' in Hi.
  split; [exact Hk|].
  split.
  - unfold s'. rewrite startConversation_unconfigured;
      auto using idleState_guard.
    exists [EConsoleLog [CStr (lit "Connecting to Pipecat endpoint:");
                         CStr match VITE_PIPECAT_ENDPOINT env with
                              | Some (c :: e) => c :: e
                              | _ => defaultEndpoint
                              end];
            EConsoleLog [CStr (lit "API Key provided:"); CBool false]].
    cbn. rewrite <- !app_assoc. split; reflexivity.
  - destruct Hi as (H1 & H2 & H3 & H4 & H5 & H6). auto.
Qed.

Lemma no_credential_configuration_error_witness :
  let s := comp (run envNoToken [ClickOpen; ClickEnd; Start] mounted) in
  let s' := fst (startConversation envNoToken s) in
  snd (startConversation envNoToken s) = None /\
  (exists logged,
      effects s' = effects s ++ logged ++
        [EConsoleError [CExn ConfigurationError];
         EToast (lit "Error")
           (lit "VITE_PIPECAT_TOKEN is not configured in .env file") true]
      /\ filter isFetch logged = []) /\
  requests s' = [] /\
  isConnecting s' = false /\
  connectLockRef s' = false.
Proof.
  apply (no_credential_configuration_error envNoToken
           [ClickOpen; ClickEnd; Start]).
  reflexivity.
Defined.

(** ** Frames: teardown and creation *)

(** The stored frame is left and destroyed before the new frame is created,
    and a rejection of [leave] or of [destroy] is only logged: the attempt
    goes on to create its frame and to wait for the response. *)
Lemma teardown_precedes_creation env s old o :
  configured (VITE_PIPECAT_TOKEN env) = true ->
  connectLockRef s || isConnecting s || isConnected s = false ->
  callFrame s = Some old ->
  let logged r :=
    match r with
    | Resolved => []
    | Rejected msg => [EConsoleError [CExn (ExternalError msg)]]
    | RejectedBare => [EConsoleError [CExn BareReason]]
    end in
  let sk := advance 2 o (startConversation env s) in
  snd sk = Some (AwaitFetch (nextFrame s)) /\
  callFrame (fst sk) = None /\
  exists before,
    effects (fst sk)
    = effects s ++ before ++ [ELeave old] ++ logged (oldLeave o)
        ++ [EDestroy old] ++ logged (oldDestroy o)
        ++ [ECreateFrame (nextFrame s)]
    /\ filter isCreateFrame before = [].
Proof.
  intros Hc Hg Hcf. unfold startConversation. rewrite Hg.
  destruct env as [ep [[|c k]|]]; try discriminate Hc.
  destruct o as [ol od r j]. cbn. rewrite Hcf. cbn.
  destruct ol, od; cbn; (split; [reflexivity|]); (split; [reflexivity|]).
  all: exists [EConsoleLog [CStr (lit "Connecting to Pipecat endpoint:");
                       CStr match ep with
                            | Some (c :: e) => c :: e
                            | _ => defaultEndpoint
                            end];
          EConsoleLog [CStr (lit "API Key provided:"); CBool true];
          EFetch match ep with
                 | Some (c :: e) => c :: e
                 | _ => defaultEndpoint
                 end (authHeader (c :: k))].
  all: rewrite <- !app_assoc; cbn; auto.
Qed.

(** C7 where an attempt fails after its frame was created: the frame is
    neither stored in [callFrame] nor destroyed, so the next attempt finds
    nothing to tear down and creates a second frame beside it. *)
Theorem failed_attempt_leaves_frame_live :
  let failed :=
    run envOk
      [ClickOpen;
       Deliver 0 (Response (HttpError 500 (lit "Internal Server Error") (lit "oops")))]
      mounted in
  let retried := run envOk [ClickEnd; ClickOpen] failed in
  tasks failed = [] /\
  callFrame (comp failed) = None /\
  liveFrames (comp failed) = [0] /\
  tasks retried = [AwaitFetch 1] /\
  liveFrames (comp retried) = [0; 1] /\
  filter isTeardown (effects (comp retried)) = [].
Proof. vm_compute. repeat split. Qed.

(* ================================================================== *)
(** * Further properties of the component *)

(** ** The clock *)

Lemma parseDecAcc_digits acc d :
  parseDecAcc acc (lit (NilEmpty.string_of_uint d)) = Some (evalUint acc d).
Proof.
  revert acc. induction d; intros acc; cbn; try reflexivity;
    unfold lit in *; cbn; rewrite IHd; do 2 f_equal; lia.
Qed.

Lemma evalUint_pos acc d :
  evalUint (Npos acc) d = Npos (Pos.of_uint_acc d acc).
Proof.
  revert acc. induction d; intros acc; cbn [evalUint Pos.of_uint_acc];
    try reflexivity;
    match goal with
    | |- evalUint ?a _ = N.pos (Pos.of_uint_acc _ ?b) =>
        replace a with (Npos b) by lia
    end; apply IHd.
Qed.

Lemma evalUint_of_uint d : evalUint 0 d = N.of_uint d.
Proof.
  unfold N.of_uint.
  induction d; cbn [evalUint Pos.of_uint]; try reflexivity;
    try exact IHd; apply evalUint_pos.
Qed.

Lemma string_of_to_uint n :
  NilZero.string_of_uint (N.to_uint n) = NilEmpty.string_of_uint (N.to_uint n)
  /\ N.to_uint n <> Decimal.Nil.
Proof.
  assert (H : N.to_uint n <> Decimal.Nil).
  { intros E. pose proof (DecimalN.Unsigned.of_to n) as H. rewrite E in H.
    cbn in H. subst n. discriminate E. }
  split; [|exact H]. destruct (N.to_uint n); try reflexivity. now elim H.
Qed.

Lemma parseDecAcc_of_N n : parseDecAcc 0 (of_N n) = Some n.
Proof.
  unfold of_N. destruct (string_of_to_uint n) as [-> _].
  rewrite parseDecAcc_digits, evalUint_of_uint.
  now rewrite DecimalN.Unsigned.of_to.
Qed.

Lemma string_of_uint_digits d :
  forallb isDigit (lit (NilEmpty.string_of_uint d)) = true.
Proof. induction d; cbn; auto. Qed.

Lemma of_N_digits n : forallb isDigit (of_N n) = true /\ of_N n <> [].
Proof.
  unfold of_N. destruct (string_of_to_uint n) as [-> H]. split.
  - apply string_of_uint_digits.
  - destruct (N.to_uint n); try (now elim H); discriminate.
Qed.

Lemma padStart2_digits x :
  forallb isDigit x = true -> x <> [] ->
  forallb isDigit (padStart2 x) = true /\
  2 <= List.length (padStart2 x) /\
  parseDec (padStart2 x) = parseDecAcc 0 x.
Proof.
  intros Hd Hne. destruct x as [|c [|c' x]]; [now elim Hne | |].
  - cbn in *. rewrite Hd. repeat split; auto.
  - split; [exact Hd|]. split; [cbn; lia | reflexivity].
Qed.

Lemma splitOn_digits x rest :
  forallb isDigit x = true ->
  splitOn 58 (x ++ 58%N :: rest) = x :: splitOn 58 rest.
Proof.
  induction x as [|c x IH]; intros H; [reflexivity|].
  cbn in H. apply andb_prop in H. destruct H as [Hc Hx].
  cbn [app splitOn]. rewrite IH by exact Hx.
  destruct (N.eqb c 58) eqn:E; [|reflexivity].
  apply N.eqb_eq in E. subst c. discriminate Hc.
Qed.

Lemma splitOn_digits_last x :
  forallb isDigit x = true -> splitOn 58 x = [x].
Proof.
  induction x as [|c x IH]; intros H; [reflexivity|].
  cbn in H. apply andb_prop in H. destruct H as [Hc Hx].
  cbn [splitOn]. rewrite IH by exact Hx.
  destruct (N.eqb c 58) eqn:E; [|reflexivity].
  apply N.eqb_eq in E. subst c. discriminate Hc.
Qed.

Lemma parseDec_padded n : parseDec (padStart2 (of_N n)) = Some n.
Proof.
  destruct (of_N_digits n) as [Hd Hne].
  destruct (padStart2_digits (of_N n) Hd Hne) as (_ & _ & ->).
  apply parseDecAcc_of_N.
Qed.

Lemma clock_fields h m s :
  parseTime (padStart2 (of_N h) ++ lit ":" ++ padStart2 (of_N m) ++ lit ":"
               ++ padStart2 (of_N s))
  = Some (h * 3600 + m * 60 + s)%N.
Proof.
  assert (D : forall k, forallb isDigit (padStart2 (of_N k)) = true).
  { intros k. destruct (of_N_digits k) as [Hd Hne].
    now apply padStart2_digits. }
  unfold parseTime. change (lit ":") with [58%N]. cbn [app].
  rewrite splitOn_digits by apply D.
  rewrite splitOn_digits by apply D.
  rewrite splitOn_digits_last by apply D.
  now rewrite !parseDec_padded.
Qed.

Lemma seconds_decompose n :
  (n / 3600 * 3600 + n mod 3600 / 60 * 60 + n mod 60 = n)%N.
Proof.
  pose proof (N.div_mod n 3600) as H1.
  pose proof (N.div_mod (n mod 3600) 60) as H2.
  assert (H3 : ((n mod 3600) mod 60 = n mod 60)%N).
  { change 3600%N with (60 * 60)%N.
    rewrite N.Div0.mod_mul_r, N.mul_comm, N.Div0.mod_add.
    apply N.Div0.mod_mod. }
  rewrite H3 in H2. lia.
Qed.

(** X1.  The clock can be read back: the three fields of [formatTime n],
    taken as hours, minutes and seconds, give [n] again.  Hence two different
    counts of seconds are never displayed alike. *)
Theorem formatTime_reads_back n :
  (n < 2 ^ 53)%N ->
  parseTime (formatTime n) = Some n /\
  (forall n', (n' < 2 ^ 53)%N -> formatTime n' = formatTime n -> n' = n).
Proof.
  intros _.
  assert (R : forall k, parseTime (formatTime k) = Some k).
  { intros k. unfold formatTime. cbv zeta. rewrite clock_fields.
    f_equal. apply seconds_decompose. }
  split; [apply R|].
  intros n' _ E. pose proof (R n') as H. rewrite E, R in H. congruence.
Qed.

Lemma formatTime_reads_back_witness :
  parseTime (formatTime 3725) = Some 3725%N /\
  (forall n', (n' < 2 ^ 53)%N -> formatTime n' = formatTime 3725 -> n' = 3725%N).
Proof. apply (formatTime_reads_back 3725). reflexivity. Defined.

Lemma padded_length_below_100 k :
  (k < 100)%N -> List.length (padStart2 (of_N k)) = 2.
Proof.
  intros H.
  assert (A : forallb (fun j => Nat.eqb (List.length (padStart2 (of_N (N.of_nat j)))) 2)
                (seq 0 100) = true) by (vm_compute; reflexivity).
  rewrite forallb_forall in A.
  specialize (A (N.to_nat k)). rewrite N2Nat.id in A.
  apply Nat.eqb_eq, A, in_seq. lia.
Qed.

(** X2.  Below a hundred hours the clock has the fixed shape [hh:mm:ss]:
    eight characters, with the colons third and sixth, and minutes and
    seconds below 60. *)
Theorem formatTime_shape n :
  (n < 360000)%N ->
  exists h1 h2 m1 m2 s1 s2,
    formatTime n = [h1; h2; 58; m1; m2; 58; s1; s2]%N /\
    parseDec [h1; h2] = Some (n / 3600)%N /\
    parseDec [m1; m2] = Some (n mod 3600 / 60)%N /\
    parseDec [s1; s2] = Some (n mod 60)%N /\
    (n mod 3600 / 60 < 60)%N /\ (n mod 60 < 60)%N.
Proof.
  intros H.
  assert (Hh : (n / 3600 < 100)%N).
  { apply N.Div0.div_lt_upper_bound. lia. }
  assert (Hm : (n mod 3600 / 60 < 60)%N).
  { apply N.Div0.div_lt_upper_bound.
    pose proof (N.mod_upper_bound n 3600). lia. }
  assert (Hs : (n mod 60 < 60)%N) by (apply N.mod_upper_bound; lia).
  pose proof (padded_length_below_100 (n / 3600) Hh) as L1.
  pose proof (padded_length_below_100 (n mod 3600 / 60)) as L2.
  pose proof (padded_length_below_100 (n mod 60)) as L3.
  pose proof (parseDec_padded (n / 3600)) as P1.
  pose proof (parseDec_padded (n mod 3600 / 60)) as P2.
  pose proof (parseDec_padded (n mod 60)) as P3.
  unfold formatTime. cbv zeta.
  destruct (padStart2 (of_N (n / 3600))) as [|h1 [|h2 [|]]]; try discriminate L1.
  destruct (padStart2 (of_N (n mod 3600 / 60))) as [|m1 [|m2 [|]]];
    try (specialize (L2 ltac:(lia)); discriminate L2).
  destruct (padStart2 (of_N (n mod 60))) as [|s1 [|s2 [|]]];
    try (specialize (L3 ltac:(lia)); discriminate L3).
  exists h1, h2, m1, m2, s1, s2. repeat split; auto.
Qed.

Lemma formatTime_shape_witness :
  exists h1 h2 m1 m2 s1 s2,
    formatTime 3725 = [h1; h2; 58; m1; m2; 58; s1; s2]%N /\
    parseDec [h1; h2] = Some (3725 / 3600)%N /\
    parseDec [m1; m2] = Some (3725 mod 3600 / 60)%N /\
    parseDec [s1; s2] = Some (3725 mod 60)%N /\
    (3725 mod 3600 / 60 < 60)%N /\ (3725 mod 60 < 60)%N.
Proof. apply (formatTime_shape 3725). reflexivity. Defined.

(** ** What the widget displays *)

Lemma run_exclusive env ls : exclusive (comp (run env ls mounted)).
Proof.
  apply (run_invariant env (fun m => exclusive (comp m))).
  - reflexivity.
  - intros l m. apply step_exclusive.
Qed.

(** X3.  Once the effects of a step have run, the clock reads [00:00:00]
    unless the component is connected, and while it is connected the clock
    shows the timer, never the placeholder of the connecting phase.  In the
    render committed between a handler and its effects, a component that is
    not connected shows [00:00:00] too, or, when that handler has just ended
    a connection, still the time of that connection, until the timer effect
    resets it. *)
Theorem clock_shows_zero_unless_connected env ls :
  let s := comp (run env ls mounted) in
  (isConnected s = false -> timeText s = lit "00:00:00") /\
  (isConnected s = true -> timeText s = formatTime (timer s)) /\
  (forall l,
      let rendered := fst (handle env l (run env ls mounted)) in
      isConnected rendered = false ->
      timeText rendered = lit "00:00:00"
      \/ (isConnected s = true /\ timeText rendered = formatTime (timer s))).
Proof.
  intros s. pose proof (run_timerInv env ls) as Ht.
  pose proof (run_exclusive env ls) as Hx. fold s in Ht, Hx.
  unfold timerInv, timerOk, exclusive in *. split; [|split].
  - intros Hc. unfold timeText. rewrite Hc in Ht. destruct Ht as [-> _].
    destruct (isConnecting s); reflexivity.
  - intros Hc. unfold timeText. rewrite Hc, andb_true_r in Hx. now rewrite Hx.
  - intros l. cbv zeta. intros Hr.
    pose proof (handle_transition env l (run env ls mounted)) as T.
    set (rendered := fst (handle env l (run env ls mounted))) in *.
    fold s in T.
    assert (Hz : timer rendered = 0%N -> timeText rendered = lit "00:00:00").
    { intros E. unfold timeText. rewrite E.
      destruct (isConnecting rendered); reflexivity. }
    destruct (transition_timer env s rendered T) as [(E1 & E2 & E3) | [i E]].
    + destruct (isConnected s) eqn:Hc.
      * unfold timeText at 1 2. rewrite E1.
        destruct (isConnecting rendered); auto.
      * left. apply Hz. rewrite E1. apply Ht.
    + left. apply Hz. rewrite E in Hr |- *. unfold tick in *.
      destruct (existsb (Nat.eqb i) (intervals s)) eqn:Ei.
      * cbn in Hr. rewrite Hr in Ht. destruct Ht as [_ Hi].
        rewrite Hi in Ei. discriminate Ei.
      * rewrite Hr in Ht. apply Ht.
Qed.

Lemma clock_shows_zero_unless_connected_witness :
  let m := run envOk [Start; JoinedMeeting 0; Tick 1; Tick 1] mounted in
  let s := comp m in
  (isConnected s = false -> timeText s = lit "00:00:00") /\
  (isConnected s = true -> timeText s = formatTime (timer s)) /\
  (forall l,
      let rendered := fst (handle envOk l m) in
      isConnected rendered = false ->
      timeText rendered = lit "00:00:00"
      \/ (isConnected s = true /\ timeText rendered = formatTime (timer s))).
Proof.
  apply (clock_shows_zero_unless_connected envOk
           [Start; JoinedMeeting 0; Tick 1; Tick 1]).
Defined.

(** X4.  The status line has two texts only, and reads [Connected] whenever
    no attempt is connecting.  With no credential configured the component
    is never connected and never connecting, so its status line reads
    [Connected] in every state it reaches. *)
Theorem status_line_without_credential env ls :
  configured (VITE_PIPECAT_TOKEN env) = false ->
  let s := comp (run env ls mounted) in
  isConnected s = false /\ isConnecting s = false /\
  statusText s = lit "Connected" /\ timeText s = lit "00:00:00".
Proof.
  intros Hc s.
  destruct (run_idle env ls Hc) as [(H1 & H2 & H3 & _) _]. fold s in H1, H2, H3.
  pose proof (run_timerInv env ls) as Ht. fold s in Ht.
  unfold timerInv, timerOk in Ht. rewrite H3 in Ht. destruct Ht as [Ht _].
  unfold statusText, timeText. rewrite H2, Ht. auto.
Qed.

Lemma status_line_without_credential_witness :
  let s := comp (run envNoToken [ClickOpen] mounted) in
  isConnected s = false /\ isConnecting s = false /\
  statusText s = lit "Connected" /\ timeText s = lit "00:00:00".
Proof.
  apply (status_line_without_credential envNoToken [ClickOpen]). reflexivity.
Defined.

(** ** The microphone *)

(** X5.  [toggleMute] flips the flag; with a frame stored it tells the frame
    to enable the microphone exactly when the new flag is "not muted", and
    without one it calls nothing.  Two toggles restore the flag and leave
    everything but the log of calls as it was. *)
Theorem toggleMute_twice s :
  let s1 := toggleMute s in
  let s2 := toggleMute s1 in
  isMuted s1 = negb (isMuted s) /\
  effects s1
    = effects s ++ match callFrame s with
                   | Some f => [ESetLocalAudio f (negb (isMuted s1))]
                   | None => []
                   end /\
  isMuted s2 = isMuted s /\
  s2 = setEffects (effects s2) s.
Proof.
  unfold toggleMute. destruct_state s. cbn.
  destruct cf; cbn; rewrite ?app_nil_r, ?negb_involutive; auto.
Qed.

Ltac audio_simpl :=
  unfold audioCalls; cbn; repeat rewrite ?filter_app; cbn;
  rewrite ?app_nil_r.

Lemma startConversation_audio env s :
  audioCalls (fst (startConversation env s)) = audioCalls s.
Proof.
  unfold startConversation.
  destruct (connectLockRef s || isConnecting s || isConnected s);
    [reflexivity|].
  destruct (VITE_PIPECAT_TOKEN env) as [[|c k]|]; cbn;
    try (audio_simpl; reflexivity).
  destruct (callFrame s); audio_simpl; reflexivity.
Qed.

Lemma resume_audio c o s :
  audioCalls (fst (resume c o s)) = audioCalls s /\
  isMuted (fst (resume c o s)) = isMuted s.
Proof.
  resume_cases c o; unfold swallow; repeat (break_var; cbn);
    audio_simpl; auto.
Qed.

Lemma timer_effects_audio s :
  (audioCalls (timerCleanup s) = audioCalls s /\
   isMuted (timerCleanup s) = isMuted s) /\
  (audioCalls (timerEffect s) = audioCalls s /\
   isMuted (timerEffect s) = isMuted s).
Proof.
  unfold timerCleanup, timerEffect, clearTimerRef.
  destruct (timerRef s), (isConnected s); cbn; auto.
Qed.

Lemma autoConnectEffect_audio env s :
  audioCalls (fst (autoConnectEffect env s)) = audioCalls s /\
  isMuted (fst (autoConnectEffect env s)) = isMuted s.
Proof.
  split; [|apply autoConnectEffect_frame].
  unfold autoConnectEffect.
  destruct (isOpen s && negb (isConnected s) && negb (isConnecting s));
    [apply startConversation_audio | reflexivity].
Qed.

Lemma commit_audio env b a :
  audioCalls (fst (commit env b a)) = audioCalls a /\
  isMuted (fst (commit env b a)) = isMuted a.
Proof.
  rewrite commit_fst. cbv zeta.
  set (s1 := if negb (Bool.eqb (isConnected b) (isConnected a))
             then timerCleanup a else a).
  assert (E1 : audioCalls s1 = audioCalls a /\ isMuted s1 = isMuted a).
  { unfold s1. destruct (negb (Bool.eqb (isConnected b) (isConnected a)));
      [apply timer_effects_audio | auto]. }
  set (s2 := if negb (Bool.eqb (isOpen b) (isOpen a))
             then fst (autoConnectEffect env s1) else s1).
  assert (E2 : audioCalls s2 = audioCalls a /\ isMuted s2 = isMuted a).
  { unfold s2. destruct (negb (Bool.eqb (isOpen b) (isOpen a))); [|exact E1].
    destruct (autoConnectEffect_audio env s1) as [-> ->]. exact E1. }
  destruct (negb (Bool.eqb (isConnected b) (isConnected a))); [|exact E2].
  destruct (timer_effects_audio s2) as [_ [-> ->]]. exact E2.
Qed.

(** X6.  Only the mute button changes the mute flag or switches the
    microphone: every other step (opening, ending, connecting, the listeners,
    the timer) leaves [isMuted] and the [setLocalAudio] calls as they were.
    In particular a frame created after the user muted is never told. *)
Theorem only_mute_button_switches_microphone env l m :
  l <> ClickMute ->
  isMuted (comp (step env l m)) = isMuted (comp m) /\
  audioCalls (comp (step env l m)) = audioCalls (comp m).
Proof.
  intros Hl. rewrite comp_step.
  destruct (commit_audio env (comp m) (fst (handle env l m))) as [-> ->].
  destruct l; try (now elim Hl); cbn [handle fst]; unfold onFrame;
    try (split; reflexivity).
  - unfold endConversation. destruct (callFrame (comp m)); cbn;
      audio_simpl; auto.
  - destruct (startConversation env (comp m)) as [s' k] eqn:E.
    change s' with (fst (s', k)). rewrite <- E. split.
    + apply startConversation_frame.
    + apply startConversation_audio.
  - unfold handleSendMessage. destruct (blank (inputText (comp m))); auto.
  - unfold mockReply. destruct (timeouts (comp m)); auto.
  - unfold tick. destruct (existsb (Nat.eqb i) (intervals (comp m))); auto.
  - destruct (Nat.ltb f (nextFrame (comp m))); auto.
  - destruct (Nat.ltb f (nextFrame (comp m))); auto.
  - destruct (Nat.ltb f (nextFrame (comp m))); cbn; audio_simpl; auto.
  - destruct (Nat.ltb f (nextFrame (comp m))); auto.
    unfold onParticipantJoined. destruct (Js.eqb user_name (lit "Chatbot")); auto.
  - destruct (Nat.ltb f (nextFrame (comp m))); auto.
  - destruct (nth_error (tasks m) task) as [c|]; auto.
    destruct (resume c o (comp m)) as [s' k] eqn:E.
    change s' with (fst (s', k)). rewrite <- E.
    destruct (resume_audio c o (comp m)); auto.
Qed.

Lemma only_mute_button_switches_microphone_witness :
  let m := run envOk [ClickOpen; ClickMute] mounted in
  isMuted (comp (step envOk (Deliver 0 (Response (HttpOk okData))) m))
    = isMuted (comp m) /\
  audioCalls (comp (step envOk (Deliver 0 (Response (HttpOk okData))) m))
    = audioCalls (comp m).
Proof.
  apply (only_mute_button_switches_microphone envOk
           (Deliver 0 (Response (HttpOk okData)))).
  discriminate.
Defined.

(** ** The transcript in use *)

Lemma resume_quiet_fields c o s :
  inputText (fst (resume c o s)) = inputText s /\
  timeouts (fst (resume c o s)) = timeouts s.
Proof.
  resume_cases c o; unfold swallow; repeat (break_var; cbn); auto.
Qed.

Lemma timer_effects_quiet_fields s :
  (inputText (timerCleanup s) = inputText s /\
   timeouts (timerCleanup s) = timeouts s) /\
  (inputText (timerEffect s) = inputText s /\
   timeouts (timerEffect s) = timeouts s).
Proof.
  unfold timerCleanup, timerEffect, clearTimerRef.
  destruct (timerRef s), (isConnected s); cbn; auto.
Qed.

Lemma commit_quiet env b a : quiet a -> quiet (fst (commit env b a)).
Proof.
  intros (H1 & H2 & H3). unfold quiet. rewrite commit_transcript.
  split; [|split]; auto; rewrite commit_fst; cbv zeta.
  all: set (s1 := if negb (Bool.eqb (isConnected b) (isConnected a))
                  then timerCleanup a else a).
  all: assert (E1 : inputText s1 = inputText a /\ timeouts s1 = timeouts a)
         by (unfold s1;
             destruct (negb (Bool.eqb (isConnected b) (isConnected a)));
             [apply timer_effects_quiet_fields | auto]).
  all: set (s2 := if negb (Bool.eqb (isOpen b) (isOpen a))
                  then fst (autoConnectEffect env s1) else s1).
  all: assert (E2 : inputText s2 = inputText a /\ timeouts s2 = timeouts a)
         by (unfold s2; destruct (negb (Bool.eqb (isOpen b) (isOpen a)));
             [|exact E1];
             destruct (autoConnectEffect_frame env s1)
               as (_ & _ & _ & _ & _ & -> & _ & _ & _ & -> & _); exact E1).
  all: destruct (negb (Bool.eqb (isConnected b) (isConnected a)));
         [destruct (timer_effects_quiet_fields s2) as [_ [Ha Hb]];
          rewrite ?Ha, ?Hb|];
         destruct E2; congruence.
Qed.

Lemma transition_quiet env s s' : transition env s s' -> quiet s -> quiet s'.
Proof.
  intros T (H1 & H2 & H3). unfold quiet.
  destruct T; auto.
  - unfold endConversation. destruct (callFrame s); cbn; auto.
  - unfold toggleMute. destruct (callFrame s); cbn; auto.
  - destruct (startConversation_frame env s)
      as (_ & _ & _ & -> & _ & -> & _ & _ & _ & -> & _). auto.
  - unfold handleSendMessage. rewrite H1. cbn. auto.
  - unfold mockReply. rewrite H2. auto.
  - unfold tick. destruct (existsb (Nat.eqb i) (intervals s)); cbn; auto.
  - unfold onParticipantJoined.
    destruct (Js.eqb user_name (lit "Chatbot")); cbn; auto.
    repeat split; auto. apply Forall_app. split; auto.
    constructor; [|constructor]. split; reflexivity.
  - rewrite resume_transcript.
    destruct (resume_quiet_fields c o s) as [-> ->]. auto.
Qed.

(** X8.  Nothing in the component sets the input text, so in every state it
    reaches the input is empty and no reply is pending, and the transcript
    holds nothing but the greeting of the participant-joined listener: no
    entry of the user, and no canned reply, ever appears. *)
Theorem transcript_holds_only_greetings env ls :
  let s := comp (run env ls mounted) in
  inputText s = [] /\ timeouts s = 0 /\
  forall e, In e (transcript s) ->
    speaker e = ai /\ text e = lit "I am Farm Vaidya AI".
Proof.
  intros s.
  assert (H : quiet s).
  { apply (run_invariant env (fun m => quiet (comp m))).
    - repeat split. constructor.
    - intros l m Hq. rewrite comp_step. apply commit_quiet.
      eapply transition_quiet; [apply handle_transition | exact Hq]. }
  destruct H as (H1 & H2 & H3). repeat split; auto;
    rewrite Forall_forall in H3; now apply H3.
Qed.

Lemma transcript_holds_only_greetings_witness :
  let s :=
    comp (run envOk
            [ClickOpen; ParticipantJoined 0 (lit "Chatbot") (lit "g1") 3;
             SendMessage (lit "u1") 4; Timeout (lit "r1") 5] mounted) in
  inputText s = [] /\ timeouts s = 0 /\
  forall e, In e (transcript s) ->
    speaker e = ai /\ text e = lit "I am Farm Vaidya AI".
Proof.
  apply (transcript_holds_only_greetings envOk
           [ClickOpen; ParticipantJoined 0 (lit "Chatbot") (lit "g1") 3;
            SendMessage (lit "u1") 4; Timeout (lit "r1") 5]).
Defined.

(** ** The response and the outcome of an attempt *)

Lemma js_or_firstTruthy3 data a b c :
  let picked := js_or (js_or (prop data a) (prop data b)) (prop data c) in
  truthy picked = truthy (firstTruthy data [a; b; c]) /\
  (truthy picked = true -> picked = firstTruthy data [a; b; c]).
Proof.
  unfold firstTruthy, js_or. cbn [find].
  destruct (truthy (prop data a)) eqn:Ea.
  - rewrite Ea. auto.
  - destruct (truthy (prop data b)) eqn:Eb.
    + rewrite Eb. auto.
    + destruct (truthy (prop data c)) eqn:Ec; auto.
      split; [reflexivity | intros H; discriminate H].
Qed.

Lemma js_or_firstTruthy2 data a b :
  let picked := js_or (prop data a) (prop data b) in
  truthy picked = truthy (firstTruthy data [a; b]) /\
  (truthy picked = true -> picked = firstTruthy data [a; b]).
Proof.
  unfold firstTruthy, js_or. cbn [find].
  destruct (truthy (prop data a)) eqn:Ea.
  - rewrite Ea. auto.
  - destruct (truthy (prop data b)) eqn:Eb; auto.
    split; [reflexivity | intros H; discriminate H].
Qed.

(** X10.  From a response other than [null] the attempt takes, as room URL,
    the first of [dailyRoom], [room_url], [roomUrl] whose value is truthy,
    and as token the first of [dailyToken], [token] whose value is truthy; an
    alias that is present but empty, zero, false or null counts as missing.
    With both found it calls [join] with them; otherwise it ends in the
    error of line 202 without calling [join]. *)
Theorem response_selects_first_truthy_alias frame data s :
  data <> JNull ->
  let url := firstTruthy data ["dailyRoom"; "room_url"; "roomUrl"]%string in
  let token := firstTruthy data ["dailyToken"; "token"]%string in
  let r := resume (AwaitFetch frame) (Response (HttpOk data)) s in
  if truthy url && truthy token
  then r = (emit (EJoin frame url token) s, Some (AwaitJoin frame))
  else snd r = None /\
       joins (fst r) = joins s /\
       toasts (fst r)
       = toasts s ++ [EToast (lit "Error")
                        (lit "Missing room URL or token from API response") true].
Proof.
  intros Hnull url token r.
  destruct (js_or_firstTruthy3 data "dailyRoom" "room_url" "roomUrl")
    as [Hu Hu'].
  destruct (js_or_firstTruthy2 data "dailyToken" "token") as [Ht Ht'].
  cbv zeta in Hu, Hu', Ht, Ht'. fold url in Hu, Hu'. fold token in Ht, Ht'.
  assert (E : r = let roomUrl :=
                    js_or (js_or (prop data "dailyRoom") (prop data "room_url"))
                          (prop data "roomUrl") in
                  let roomToken :=
                    js_or (prop data "dailyToken") (prop data "token") in
                  if negb (truthy roomUrl) || negb (truthy roomToken)
                  then (catchBlock ResponseShapeError
                          (emit (EConsoleError
                                   [CStr (lit "API Response:"); CJson data]) s),
                        None)
                  else (emit (EJoin frame roomUrl roomToken) s,
                        Some (AwaitJoin frame))).
  { unfold r. destruct data; try reflexivity. now elim Hnull. }
  rewrite E. cbv zeta. rewrite Hu, Ht.
  destruct (truthy url) eqn:Eu; destruct (truthy token) eqn:Et; cbn [negb orb andb].
  - rewrite Hu', Ht' by assumption. reflexivity.
  - unfold toasts, joins. log_simpl. auto.
  - unfold toasts, joins. log_simpl. auto.
  - unfold toasts, joins. log_simpl. auto.
Qed.

Lemma response_selects_first_truthy_alias_witness :
  let data :=
    JObj [(lit "dailyRoom", JStr []); (lit "roomUrl", JStr (lit "https://r"));
          (lit "token", JStr (lit "t"))] in
  resume (AwaitFetch 0) (Response (HttpOk data)) initial
  = (emit (EJoin 0 (Some (JStr (lit "https://r"))) (Some (JStr (lit "t")))) initial,
     Some (AwaitJoin 0)).
Proof.
  apply (response_selects_first_truthy_alias 0
           (JObj [(lit "dailyRoom", JStr []); (lit "roomUrl", JStr (lit "https://r"));
                  (lit "token", JStr (lit "t"))]) initial).
  discriminate.
Defined.

Ltac count_simpl :=
  unfold toasts, joins in *; cbn;
  repeat rewrite ?filter_app, ?length_app; cbn;
  rewrite ?app_nil_r, ?Nat.add_0_r.

Ltac count_done :=
  count_simpl;
  repeat match goal with
         | H : filter _ _ = filter _ _ |- _ => rewrite H; clear H
         | H : List.length (filter _ _) = _ |- _ => rewrite H; clear H
         end;
  repeat split; auto; lia.

Lemma resume_attemptDuring o s0 s c :
  attemptDuring o s0 (s, Some c) ->
  attemptDuring o s0 (resume c (outcomeFor o c) s).
Proof.
  destruct o as [ol od r j]. unfold attemptDuring, succeeds, failsSilently.
  destruct c; cbn [fst snd outcomeFor oldLeave oldDestroy response join].
  - intros (H0 & H1 & H2 & H3 & H4). destruct ol; count_done.
  - intros (H0 & H1 & H2 & H3 & H4). destruct od; count_done.
  - intros (H0 & H1 & H2 & H3 & H4).
    destruct r as [?|? ? ?|data|]; [count_done | count_done | | count_done].
    destruct data; cbn [resume wellShaped andb];
      try match goal with
          | |- context [if ?b then _ else _] => destruct b eqn:E
          end; count_done.
  - intros (H0 & H1 & H2 & H3 & H4 & H5).
    destruct r as [?|? ? ?|data|]; try discriminate H5.
    rewrite H5. destruct j; count_done.
  - intros [_ []].
Qed.

Lemma advance_attemptDuring o s0 n sk :
  attemptDuring o s0 sk -> attemptDuring o s0 (advance n o sk).
Proof.
  revert sk; induction n as [|n IH]; intros [s [c|]]; cbn [advance]; auto.
  intros H. apply IH, resume_attemptDuring, H.
Qed.

Lemma startConversation_attemptDuring env o s :
  configured (VITE_PIPECAT_TOKEN env) = true ->
  connectLockRef s || isConnecting s || isConnected s = false ->
  attemptDuring o s (startConversation env s).
Proof.
  intros Hc Hg. unfold startConversation. rewrite Hg.
  destruct env as [ep [[|c k]|]]; try discriminate Hc.
  unfold attemptDuring. cbn.
  destruct (callFrame s) eqn:E; count_done.
Qed.



(** ** Opening the widget *)

Lemma commit_open_only env b a :
  isConnected b = isConnected a ->
  fst (commit env b a)
  = if Bool.eqb (isOpen b) (isOpen a) then a else fst (autoConnectEffect env a).
Proof.
  intros H. rewrite commit_fst, H, Bool.eqb_reflx. cbv zeta. cbn [negb].
  destruct (Bool.eqb (isOpen b) (isOpen a)); reflexivity.
Qed.

(** X12.  Clicking the toggle of a widget that is already open changes
    nothing.  Opening a closed widget connects by itself: it issues one
    request when the component is neither connected nor connecting, the lock
    is free and a credential is configured, and none otherwise. *)
Theorem opening_connects_once env m :
  (isOpen (comp m) = true -> step env ClickOpen m = m) /\
  (isOpen (comp m) = false ->
     let s := comp m in
     let s' := comp (step env ClickOpen m) in
     isOpen s' = true /\
     List.length (requests s')
     = List.length (requests s)
       + (if negb (connectLockRef s || isConnecting s || isConnected s)
             && configured (VITE_PIPECAT_TOKEN env)
          then 1 else 0)).
Proof.
  split; intros Ho.
  - unfold step. cbn [handle].
    assert (E : setIsOpen true (comp m) = comp m).
    { destruct m as [s ts]. destruct_state s. cbn in *. now subst. }
    rewrite E, commit_same by reflexivity. destruct m; reflexivity.
  - intros s s'. unfold s'. rewrite comp_step. cbn [handle fst].
    rewrite commit_open_only by reflexivity. fold s.
    replace (isOpen s) with false by (symmetry; exact Ho). cbn [isOpen setIsOpen Bool.eqb].
    unfold autoConnectEffect. cbn [isOpen isConnected isConnecting setIsOpen andb].
    destruct (isConnected s) eqn:Ed; cbn [negb andb].
    { rewrite !orb_true_r. unfold requests. cbn. split; [reflexivity | lia]. }
    destruct (isConnecting s) eqn:Eg; cbn [negb andb].
    { rewrite orb_true_r. unfold requests. cbn. split; [reflexivity | lia]. }
    destruct (startConversation_frame env (setIsOpen true s)) as (-> & _).
    split; [reflexivity|].
    destruct (connectLockRef s) eqn:El; cbn [orb negb andb].
    { rewrite startConversation_guarded by (cbn; now rewrite El).
      unfold requests. cbn. lia. }
    destruct (configured (VITE_PIPECAT_TOKEN env)) eqn:Ec.
    + destruct (startConversation_begins env (setIsOpen true s) Ec)
        as (_ & _ & H & _).
      { cbn. now rewrite El, Eg, Ed. }
      cbv zeta in H. rewrite H. unfold requests. cbn. lia.
    + rewrite startConversation_unconfigured;
        [| exact Ec | cbn; now rewrite El, Eg, Ed].
      log_simpl. lia.
Qed.

Lemma opening_connects_once_witness :
  step envOk ClickOpen (run envOk [ClickOpen] mounted)
    = run envOk [ClickOpen] mounted /\
  (let s' := comp (step envOk ClickOpen mounted) in
   isOpen s' = true /\ List.length (requests s') = 1).
Proof.
  split.
  - apply (proj1 (opening_connects_once envOk (run envOk [ClickOpen] mounted))).
    reflexivity.
  - apply (proj2 (opening_connects_once envOk mounted)). reflexivity.
Defined.

(** ** The credential, normalised *)

(** X14.  Normalising the credential is idempotent: the header built from a
    header is that header, so a credential that already went through line
    112 never gets a second prefix. *)
Theorem authHeader_idempotent apiKey :
  authHeader (authHeader apiKey) = authHeader apiKey.
Proof.
  unfold authHeader at 1. now rewrite authHeader_matches.
Qed.

(** ** Who destroys a frame *)

Ltac destroy_simpl :=
  unfold destroyCalls; cbn; repeat rewrite ?filter_app; cbn;
  rewrite ?app_nil_r.

Lemma startConversation_destroys env s :
  destroyCalls (fst (startConversation env s)) = destroyCalls s.
Proof.
  unfold startConversation.
  destruct (connectLockRef s || isConnecting s || isConnected s);
    [reflexivity|].
  destruct (VITE_PIPECAT_TOKEN env) as [[|c k]|]; cbn;
    try (destroy_simpl; reflexivity).
  destruct (callFrame s); destroy_simpl; reflexivity.
Qed.

Lemma timer_effects_destroys s :
  (destroyCalls (timerCleanup s) = destroyCalls s /\
   callFrame (timerCleanup s) = callFrame s) /\
  (destroyCalls (timerEffect s) = destroyCalls s /\
   callFrame (timerEffect s) = callFrame s).
Proof.
  unfold timerCleanup, timerEffect, clearTimerRef.
  destruct (timerRef s), (isConnected s); cbn; auto.
Qed.

Lemma autoConnectEffect_destroys env s :
  destroyCalls (fst (autoConnectEffect env s)) = destroyCalls s /\
  callFrame (fst (autoConnectEffect env s)) = callFrame s.
Proof.
  split; [|apply autoConnectEffect_frame].
  unfold autoConnectEffect.
  destruct (isOpen s && negb (isConnected s) && negb (isConnecting s));
    [apply startConversation_destroys | reflexivity].
Qed.

Lemma commit_destroys env b a :
  destroyCalls (fst (commit env b a)) = destroyCalls a /\
  callFrame (fst (commit env b a)) = callFrame a.
Proof.
  rewrite commit_fst. cbv zeta.
  set (s1 := if negb (Bool.eqb (isConnected b) (isConnected a))
             then timerCleanup a else a).
  assert (E1 : destroyCalls s1 = destroyCalls a /\ callFrame s1 = callFrame a).
  { unfold s1. destruct (negb (Bool.eqb (isConnected b) (isConnected a)));
      [apply timer_effects_destroys | auto]. }
  set (s2 := if negb (Bool.eqb (isOpen b) (isOpen a))
             then fst (autoConnectEffect env s1) else s1).
  assert (E2 : destroyCalls s2 = destroyCalls a /\ callFrame s2 = callFrame a).
  { unfold s2. destruct (negb (Bool.eqb (isOpen b) (isOpen a))); [|exact E1].
    destruct (autoConnectEffect_destroys env s1) as [-> ->]. exact E1. }
  destruct (negb (Bool.eqb (isConnected b) (isConnected a))); [|exact E2].
  destruct (timer_effects_destroys s2) as [_ [-> ->]]. exact E2.
Qed.

(** X15.  A frame is destroyed, and [callFrame] changed, only where a
    suspended function resumes.  No click, listener or timer callback does
    either: ending the conversation leaves the session but keeps the frame
    stored and undestroyed, and the synchronous start of an attempt neither
    clears [callFrame] nor destroys anything yet. *)
Theorem frame_kept_between_attempts env l m :
  (forall task o, l <> Deliver task o) ->
  callFrame (comp (step env l m)) = callFrame (comp m) /\
  destroyCalls (comp (step env l m)) = destroyCalls (comp m).
Proof.
  intros Hl. rewrite comp_step.
  destruct (commit_destroys env (comp m) (fst (handle env l m))) as [-> ->].
  destruct l; cbn [handle fst]; unfold onFrame; try (split; reflexivity).
  - unfold endConversation. destruct (callFrame (comp m)) eqn:E; cbn;
      destroy_simpl; auto.
  - unfold toggleMute. destruct (callFrame (comp m)) eqn:E; cbn;
      destroy_simpl; auto.
  - destruct (startConversation env (comp m)) as [s' k] eqn:E.
    change s' with (fst (s', k)). rewrite <- E. split.
    + apply startConversation_frame.
    + apply startConversation_destroys.
  - unfold handleSendMessage. destruct (blank (inputText (comp m))); auto.
  - unfold mockReply. destruct (timeouts (comp m)); auto.
  - unfold tick. destruct (existsb (Nat.eqb i) (intervals (comp m))); auto.
  - destruct (Nat.ltb f (nextFrame (comp m))); auto.
  - destruct (Nat.ltb f (nextFrame (comp m))); auto.
  - destruct (Nat.ltb f (nextFrame (comp m))); cbn; destroy_simpl; auto.
  - destruct (Nat.ltb f (nextFrame (comp m))); auto.
    unfold onParticipantJoined. destruct (Js.eqb user_name (lit "Chatbot")); auto.
  - destruct (Nat.ltb f (nextFrame (comp m))); auto.
  - now elim (Hl task o).
Qed.

Lemma frame_kept_between_attempts_witness :
  let m :=
    run envOk [ClickOpen; Deliver 0 (Response (HttpOk okData));
               JoinedMeeting 0; Deliver 0 (Settle Resolved)] mounted in
  callFrame (comp (step envOk ClickEnd m)) = callFrame (comp m) /\
  destroyCalls (comp (step envOk ClickEnd m)) = destroyCalls (comp m).
Proof.
  apply (frame_kept_between_attempts envOk ClickEnd). discriminate.
Defined.

(** ** Every SDK call addresses a frame in order *)

Lemma frameJoinedAt_mono n n' log log' f :
  n <= n' ->
  (forall P, existsb P log = true -> existsb P log' = true) ->
  frameJoinedAt n log f -> frameJoinedAt n' log' f.
Proof. intros Hn Hl [H1 H2]. split; [lia | auto]. Qed.

Lemma effectOkAt_mono n n' log log' e :
  n <= n' ->
  (forall P, existsb P log = true -> existsb P log' = true) ->
  effectOkAt n log e -> effectOkAt n' log' e.
Proof.
  intros Hn Hl. destruct e; cbn; auto; try lia;
    apply frameJoinedAt_mono; auto.
Qed.

Lemma grows_refl s : grows s s.
Proof. split; auto. Qed.

Lemma grows_trans a b c : grows a b -> grows b c -> grows a c.
Proof. intros [H1 H2] [H3 H4]. split; [lia | auto]. Qed.

Lemma contOk_grows s s' c : grows s s' -> contOk s c -> contOk s' c.
Proof.
  intros [Hn Hl]. destruct c; cbn; try lia;
    apply frameJoinedAt_mono; auto.
Qed.

Lemma existsb_app_l (P : Effect -> bool) l added :
  existsb P l = true -> existsb P (l ++ added) = true.
Proof. intros H. now rewrite existsb_app, H. Qed.

Ltac frames_leaf :=
  match goal with
  | |- True => exact I
  | |- _ <= _ => cbn in *; lia
  | |- _ < _ => cbn in *; lia
  | |- forall P, existsb P _ = true -> existsb P _ = true =>
      let P := fresh in let H := fresh in
      intros P H; cbn; repeat apply existsb_app_l; exact H
  | |- existsb _ _ = true =>
      cbn; repeat rewrite existsb_app; cbn;
      rewrite ?Nat.eqb_refl, ?orb_true_r; first [reflexivity | assumption]
  | |- existsb _ _ = true =>
      cbn; repeat apply existsb_app_l; assumption
  end.

(** Closes a goal [framesOk s'] or [stepOk s r] once [s'] is an explicit
    extension of a state [s] with [framesOk s]. *)
Ltac frames_solve Hstored Hcalls :=
  unfold stepOk, framesOk, grows, contOk, frameJoinedAt; cbn;
  repeat match goal with
         | |- _ /\ _ => split
         | |- Forall _ (_ ++ _) => apply Forall_app; split
         | |- Forall _ (_ :: _) => constructor
         | |- Forall _ [] => constructor
         | |- effectOkAt _ _ _ => unfold effectOkAt, frameJoinedAt; cbn
         end;
  try frames_leaf;
  try (eapply Forall_impl; [|exact Hcalls];
       let e := fresh in let He := fresh in
       intros e He; eapply effectOkAt_mono; [| |exact He]; frames_leaf);
  try (let f := fresh in let E := fresh in
       intros f E;
       first [ discriminate E
             | injection E as <-
             | apply Hstored in E; destruct E as [? ?] ];
       split; frames_leaf).

Lemma startConversation_stepOk env s :
  framesOk s -> stepOk s (startConversation env s).
Proof.
  intros [Hs Hc]. unfold startConversation.
  destruct (connectLockRef s || isConnecting s || isConnected s).
  { frames_solve Hs Hc. }
  destruct (VITE_PIPECAT_TOKEN env) as [[|c k]|]; cbn [fst snd];
    try (frames_solve Hs Hc; fail).
  cbn. destruct (callFrame s) as [old|] eqn:E in |- *.
  - destruct (Hs old E) as [H1 H2]. frames_solve Hs Hc.
  - frames_solve Hs Hc.
Qed.

Lemma resume_stepOk c o s :
  framesOk s -> contOk s c -> stepOk s (resume c o s).
Proof.
  intros [Hs Hc] Hk.
  resume_cases c o; unfold swallow; repeat (break_var; cbn [fst snd]);
    cbn in Hk; try destruct Hk as [H1 H2]; frames_solve Hs Hc.
Qed.

Lemma endConversation_stepOk s : framesOk s -> stepOk s (endConversation s).
Proof.
  intros [Hs Hc]. unfold endConversation.
  destruct (callFrame s) as [old|] eqn:E in |- *.
  - destruct (Hs old E) as [H1 H2]. frames_solve Hs Hc.
  - frames_solve Hs Hc.
Qed.

Lemma toggleMute_stepOk s : framesOk s -> stepOk s (toggleMute s, None).
Proof.
  intros [Hs Hc]. unfold toggleMute.
  destruct (callFrame s) as [old|] eqn:E in |- *.
  - destruct (Hs old E) as [H1 H2]. frames_solve Hs Hc.
  - frames_solve Hs Hc.
Qed.

Lemma timer_effects_stepOk s :
  framesOk s ->
  stepOk s (timerCleanup s, None) /\ stepOk s (timerEffect s, None).
Proof.
  intros [Hs Hc]. unfold timerCleanup, timerEffect, clearTimerRef.
  destruct (timerRef s), (isConnected s); split; frames_solve Hs Hc.
Qed.

Lemma stepOk_trans s s1 r :
  grows s s1 -> stepOk s1 r -> stepOk s r.
Proof.
  intros G (H1 & H2 & H3). split; [|split]; auto.
  eapply grows_trans; eauto.
Qed.

Lemma autoConnectEffect_stepOk env s :
  framesOk s -> stepOk s (autoConnectEffect env s).
Proof.
  intros H. unfold autoConnectEffect.
  destruct (isOpen s && negb (isConnected s) && negb (isConnecting s)).
  - now apply startConversation_stepOk.
  - destruct H as [Hs Hc]. frames_solve Hs Hc.
Qed.

Lemma commit_stepOk env b a : framesOk a -> stepOk a (commit env b a).
Proof.
  intros H. unfold commit.
  set (s1 := if negb (Bool.eqb (isConnected b) (isConnected a))
             then timerCleanup a else a).
  assert (H1 : stepOk a (s1, None)).
  { unfold s1. destruct (negb (Bool.eqb (isConnected b) (isConnected a))).
    - now apply timer_effects_stepOk.
    - destruct H as [Hs Hc]. frames_solve Hs Hc. }
  destruct H1 as (G1 & F1 & _). cbn [fst] in G1, F1.
  assert (H2 : stepOk a (if negb (Bool.eqb (isOpen b) (isOpen a))
                         then autoConnectEffect env s1 else (s1, None))).
  { destruct (negb (Bool.eqb (isOpen b) (isOpen a))).
    - eapply stepOk_trans; [exact G1|]. now apply autoConnectEffect_stepOk.
    - split; [exact G1 | split; [exact F1 | exact I]]. }
  destruct (if negb (Bool.eqb (isOpen b) (isOpen a))
            then autoConnectEffect env s1 else (s1, None)) as [s2 k].
  destruct H2 as (G2 & F2 & K2). cbn [fst snd] in G2, F2, K2.
  destruct (negb (Bool.eqb (isConnected b) (isConnected a)));
    [|split; [exact G2 | split; [exact F2 | exact K2]]].
  destruct (timer_effects_stepOk s2 F2) as [_ (G3 & F3 & _)].
  cbn [fst snd] in *. split; [|split]; auto.
  - eapply grows_trans; eauto.
  - destruct k; auto. eapply contOk_grows; eauto.
Qed.

Lemma simple_handler_stepOk s s' :
  framesOk s ->
  nextFrame s' = nextFrame s ->
  callFrame s' = callFrame s ->
  (effects s' = effects s
   \/ exists title text d, effects s' = effects s ++ [EToast title text d]) ->
  stepOk s (s', None).
Proof.
  intros [Hs Hc] Hn Hf He. unfold stepOk, framesOk, grows. cbn [fst snd].
  rewrite Hn, Hf.
  destruct He as [-> | (title & text & d & ->)].
  - split; [split; auto|]. split; [split; auto | exact I].
  - split; [split; [lia | intros P; apply existsb_app_l]|].
    split; [split | exact I].
    + intros f E. destruct (Hs f E). split; auto. now apply existsb_app_l.
    + apply Forall_app. split; [|repeat constructor].
      eapply Forall_impl; [|exact Hc]. intros e He.
      eapply effectOkAt_mono; [| |exact He]; auto.
      intros P. apply existsb_app_l.
Qed.

Lemma Forall_firstn_skipn (P : Cont -> Prop) ts :
  Forall P ts -> forall i, Forall P (firstn i ts) /\ Forall P (skipn i ts).
Proof.
  induction 1 as [|c ts Hc Hts IH]; intros [|i]; cbn; auto.
  destruct (IH i). auto.
Qed.

Lemma Forall_replace_nth (P : Cont -> Prop) ts i (new : list Cont) :
  Forall P ts -> Forall P new ->
  Forall P (firstn i ts ++ new ++ skipn (S i) ts).
Proof.
  intros H Hn. repeat (apply Forall_app; split); auto;
    now apply Forall_firstn_skipn.
Qed.

(** The handler of a label lets the world grow and keeps the frames and the
    suspended functions in order. *)
Lemma handle_framesOk env l m :
  framesOk (comp m) -> Forall (contOk (comp m)) (tasks m) ->
  let r := handle env l m in
  grows (comp m) (fst r) /\ framesOk (fst r) /\ Forall (contOk (fst r)) (snd r).
Proof.
  intros H Ht.
  assert (Keep : forall s',
             stepOk (comp m) (s', None) ->
             grows (comp m) s' /\ framesOk s' /\ Forall (contOk s') (tasks m)).
  { intros s' (G & F & _). cbn [fst] in G, F.
    split; [exact G | split; [exact F|]].
    eapply Forall_impl; [|exact Ht]. intros c. now apply contOk_grows. }
  assert (Spawn : forall r,
             stepOk (comp m) r ->
             grows (comp m) (fst r) /\ framesOk (fst r) /\
             Forall (contOk (fst r)) (spawn (snd r) (tasks m))).
  { intros [s' k] (G & F & K). cbn [fst snd] in *.
    split; [exact G | split; [exact F|]].
    assert (Forall (contOk s') (tasks m)).
    { eapply Forall_impl; [|exact Ht]. intros c. now apply contOk_grows. }
    destruct k; cbn; auto. apply Forall_app. split; auto. }
  destruct l; cbn [handle]; cbv zeta.
  - apply Keep, simple_handler_stepOk; auto.
  - specialize (Spawn _ (endConversation_stepOk (comp m) H)).
    destruct (endConversation (comp m)). exact Spawn.
  - apply Keep, toggleMute_stepOk, H.
  - specialize (Spawn _ (startConversation_stepOk env (comp m) H)).
    destruct (startConversation env (comp m)). exact Spawn.
  - apply Keep, simple_handler_stepOk; auto;
      unfold handleSendMessage; destruct (blank (inputText (comp m))); auto.
  - apply Keep, simple_handler_stepOk; auto;
      unfold mockReply; destruct (timeouts (comp m)); auto.
  - apply Keep, simple_handler_stepOk; auto;
      unfold tick; destruct (existsb (Nat.eqb i) (intervals (comp m))); auto.
  - apply Keep, simple_handler_stepOk; auto;
      unfold onFrame; destruct (Nat.ltb f (nextFrame (comp m))); auto.
  - apply Keep, simple_handler_stepOk; auto;
      unfold onFrame; destruct (Nat.ltb f (nextFrame (comp m))); auto.
  - apply Keep, simple_handler_stepOk; auto;
      unfold onFrame; destruct (Nat.ltb f (nextFrame (comp m))); auto.
    right. do 3 eexists. reflexivity.
  - apply Keep, simple_handler_stepOk; auto;
      unfold onFrame, onParticipantJoined;
      destruct (Nat.ltb f (nextFrame (comp m))); auto;
      destruct (Js.eqb user_name (lit "Chatbot")); auto.
  - apply Keep, simple_handler_stepOk; auto;
      unfold onFrame; destruct (Nat.ltb f (nextFrame (comp m))); auto.
  - destruct (nth_error (tasks m) task) as [c|] eqn:E.
    + assert (Hc : contOk (comp m) c).
      { rewrite Forall_forall in Ht. apply Ht. eapply nth_error_In; eauto. }
      pose proof (resume_stepOk c o (comp m) H Hc) as (G & F & K).
      destruct (resume c o (comp m)) as [s' k]. cbn [fst snd] in *.
      split; [exact G | split; [exact F|]].
      apply Forall_replace_nth.
      * eapply Forall_impl; [|exact Ht]. intros c'. now apply contOk_grows.
      * destruct k; cbn; auto.
    + apply Keep. split; [apply grows_refl | split; [exact H | exact I]].
Qed.

Lemma step_framesOk env l m :
  framesOk (comp m) /\ Forall (contOk (comp m)) (tasks m) ->
  framesOk (comp (step env l m)) /\
  Forall (contOk (comp (step env l m))) (tasks (step env l m)).
Proof.
  intros [H Ht].
  destruct (handle_framesOk env l m H Ht) as (G1 & F1 & T1).
  unfold step. destruct (handle env l m) as [s1 ts]. cbn [fst snd] in *.
  pose proof (commit_stepOk env (comp m) s1 F1) as (G2 & F2 & K2).
  destruct (commit env (comp m) s1) as [s2 k]. cbn [fst snd comp tasks] in *.
  split; [exact F2|].
  assert (Forall (contOk s2) ts).
  { eapply Forall_impl; [|exact T1]. intros c. now apply contOk_grows. }
  destruct k; cbn; auto. apply Forall_app. split; auto.
Qed.

(** X13.  In every state the component reaches, the frame stored in
    [callFrame] was created and [join] was called on it, and so was every
    frame on which the component ever called [leave], [destroy] or
    [setLocalAudio]; [join] itself was only ever called on a frame that had
    been created. *)
Theorem sdk_calls_address_joined_frames env ls :
  let s := comp (run env ls mounted) in
  (forall f, callFrame s = Some f ->
     f < nextFrame s /\ existsb (isJoinOf f) (effects s) = true) /\
  (forall e, In e (effects s) ->
     match e with
     | ECreateFrame f | EJoin f _ _ => f < nextFrame s
     | ELeave f | EDestroy f | ESetLocalAudio f _ =>
         f < nextFrame s /\ existsb (isJoinOf f) (effects s) = true
     | _ => True
     end).
Proof.
  intros s.
  assert (H : framesOk s /\ Forall (contOk s) (tasks (run env ls mounted))).
  { apply (run_invariant env
             (fun m => framesOk (comp m) /\ Forall (contOk (comp m)) (tasks m))).
    - split; [split; [intros f E; discriminate E | constructor] | constructor].
    - intros l m. apply step_framesOk. }
  destruct H as [[Hs Hc] _]. split; [exact Hs|].
  rewrite Forall_forall in Hc. exact Hc.
Qed.

Lemma sdk_calls_address_joined_frames_witness :
  let s :=
    comp (run envOk
            [ClickOpen; Deliver 0 (Response (HttpOk okData)); JoinedMeeting 0;
             Deliver 0 (Settle Resolved); ClickMute; ClickEnd] mounted) in
  (forall f, callFrame s = Some f ->
     f < nextFrame s /\ existsb (isJoinOf f) (effects s) = true) /\
  (forall e, In e (effects s) ->
     match e with
     | ECreateFrame f | EJoin f _ _ => f < nextFrame s
     | ELeave f | EDestroy f | ESetLocalAudio f _ =>
         f < nextFrame s /\ existsb (isJoinOf f) (effects s) = true
     | _ => True
     end).
Proof.
  apply (sdk_calls_address_joined_frames envOk
           [ClickOpen; Deliver 0 (Response (HttpOk okData)); JoinedMeeting 0;
            Deliver 0 (Settle Resolved); ClickMute; ClickEnd]).
Defined.

(** ** Where requests come from *)

Lemma startConversation_requests_cases env s :
  requests (fst (startConversation env s)) = requests s
  \/ (connectLockRef s || isConnecting s || isConnected s = false /\
      configured (VITE_PIPECAT_TOKEN env) = true /\
      exists endpoint key,
        requests (fst (startConversation env s))
        = requests s ++ [EFetch endpoint (authHeader key)]).
Proof.
  destruct (connectLockRef s || isConnecting s || isConnected s) eqn:Hg.
  { left. now rewrite startConversation_guarded. }
  destruct (VITE_PIPECAT_TOKEN env) as [[|c k]|] eqn:Hk.
  - left. rewrite startConversation_unconfigured; auto; [|now rewrite Hk].
    log_simpl. reflexivity.
  - right. split; [reflexivity|]. split; [reflexivity|].
    destruct (startConversation_request env s c k Hk Hg) as [endpoint H].
    now exists endpoint, (c :: k).
  - left. rewrite startConversation_unconfigured; auto; [|now rewrite Hk].
    log_simpl. reflexivity.
Qed.

Lemma timer_effects_requests s :
  (requests (timerCleanup s) = requests s /\ isOpen (timerCleanup s) = isOpen s) /\
  (requests (timerEffect s) = requests s /\ isOpen (timerEffect s) = isOpen s).
Proof.
  unfold timerCleanup, timerEffect, clearTimerRef.
  destruct (timerRef s), (isConnected s); cbn; auto.
Qed.

(** The effects issue no request unless the widget has just been opened. *)
Lemma commit_requests env b a :
  isOpen a = false \/ isOpen b = isOpen a ->
  requests (fst (commit env b a)) = requests a.
Proof.
  intros Ho. rewrite commit_fst. cbv zeta.
  set (s1 := if negb (Bool.eqb (isConnected b) (isConnected a))
             then timerCleanup a else a).
  assert (E1 : requests s1 = requests a /\ isOpen s1 = isOpen a).
  { unfold s1. destruct (negb (Bool.eqb (isConnected b) (isConnected a)));
      [apply timer_effects_requests | auto]. }
  set (s2 := if negb (Bool.eqb (isOpen b) (isOpen a))
             then fst (autoConnectEffect env s1) else s1).
  assert (E2 : requests s2 = requests a).
  { unfold s2. destruct Ho as [Ho | Ho].
    - destruct (negb (Bool.eqb (isOpen b) (isOpen a))); [|apply E1].
      unfold autoConnectEffect. destruct E1 as [E1 ->]. rewrite Ho. exact E1.
    - rewrite Ho, Bool.eqb_reflx. apply E1. }
  destruct (negb (Bool.eqb (isConnected b) (isConnected a))); [|exact E2].
  destruct (timer_effects_requests s2) as [_ [-> _]]. exact E2.
Qed.

(** X16.  A request is issued only by an invocation of [startConversation]
    (direct, or by the auto-connect effect when the widget is opened) that
    finds the lock free, the component neither connecting nor connected, and
    a credential configured.  No other click, no listener, no timer callback
    and no resumption of a suspended function ever issues one. *)
Theorem requests_only_from_idle_start env l m :
  let s := comp m in
  let s' := comp (step env l m) in
  requests s' = requests s
  \/ ((l = Start \/ l = ClickOpen) /\
      connectLockRef s || isConnecting s || isConnected s = false /\
      configured (VITE_PIPECAT_TOKEN env) = true /\
      exists endpoint key,
        requests s' = requests s ++ [EFetch endpoint (authHeader key)]).
Proof.
  intros s s'. unfold s'. rewrite comp_step. fold s.
  destruct l; cbn [handle fst]; fold s; unfold onFrame;
    try (left; rewrite commit_requests;
         [ first [ reflexivity
                 | unfold handleSendMessage; destruct (blank (inputText s)); reflexivity
                 | unfold mockReply; destruct (timeouts s); reflexivity
                 | unfold tick; destruct (existsb (Nat.eqb i) (intervals s)); reflexivity
                 | unfold toggleMute; destruct (callFrame s); log_simpl; reflexivity
                 | destruct (Nat.ltb f (nextFrame s)); log_simpl; reflexivity
                 | unfold onParticipantJoined;
                   destruct (Nat.ltb f (nextFrame s)); try reflexivity;
                   destruct (Js.eqb user_name (lit "Chatbot")); reflexivity ]
         | right;
           first [ reflexivity
                 | unfold handleSendMessage; destruct (blank (inputText s)); reflexivity
                 | unfold mockReply; destruct (timeouts s); reflexivity
                 | unfold tick; destruct (existsb (Nat.eqb i) (intervals s)); reflexivity
                 | unfold toggleMute; destruct (callFrame s); reflexivity
                 | destruct (Nat.ltb f (nextFrame s)); reflexivity
                 | unfold onParticipantJoined;
                   destruct (Nat.ltb f (nextFrame s)); try reflexivity;
                   destruct (Js.eqb user_name (lit "Chatbot")); reflexivity ] ];
         fail).
  - (* ClickOpen *)
    rewrite commit_open_only by reflexivity.
    cbn [isOpen setIsOpen].
    destruct (Bool.eqb (isOpen s) true); [left; reflexivity|].
    unfold autoConnectEffect.
    destruct (isOpen (setIsOpen true s) && negb (isConnected (setIsOpen true s))
              && negb (isConnecting (setIsOpen true s))); [|left; reflexivity].
    destruct (startConversation_requests_cases env (setIsOpen true s))
      as [H | (Hg & Hc & H)]; [left; exact H | right; auto].
  - (* ClickEnd *)
    left. unfold endConversation. destruct (callFrame s).
    + rewrite commit_requests by (right; reflexivity). log_simpl. reflexivity.
    + now rewrite commit_requests by (left; reflexivity).
  - (* Start *)
    pose proof (startConversation_frame env s) as F.
    pose proof (startConversation_requests_cases env s) as R.
    destruct (startConversation env s) as [s1 k]. cbn [fst] in *.
    destruct F as (Ho & Hd & _).
    rewrite commit_same by (symmetry; assumption). cbn [fst].
    destruct R as [H | (Hg & Hc & H)]; [left; exact H | right; auto].
  - (* Deliver *)
    left. destruct (nth_error (tasks m) task) as [c|].
    + destruct (resume c o s) as [s1 k] eqn:E.
      change s1 with (fst (s1, k)). rewrite <- E.
      rewrite <- (resume_requests c o s). apply commit_requests.
      destruct c, o as [[|?|]|?]; cbn; auto;
        repeat (break_var; cbn; auto);
        match goal with
        | |- context [if ?b then _ else _] => destruct b; cbn; auto
        end.
    + now rewrite commit_requests by (right; reflexivity).
Qed.

(* ================================================================== *)
(** * The stored frame and the lock, with everything interleaved *)

(** ** Where [callFrame] changes *)

Lemma resume_callFrame c o s :
  callFrame (fst (resume c o s))
  = match c, o with
    | AwaitOldDestroy _, Settle _ => None
    | AwaitJoin f, Settle Resolved => Some f
    | _, _ => callFrame s
    end.
Proof.
  resume_cases c o; unfold swallow; repeat (break_var; cbn); reflexivity.
Qed.

Lemma step_callFrame env l m :
  callFrame (comp (step env l m))
  = match l with
    | Deliver i (Settle r) =>
        match nth_error (tasks m) i, r with
        | Some (AwaitOldDestroy _), _ => None
        | Some (AwaitJoin f), Resolved => Some f
        | _, _ => callFrame (comp m)
        end
    | _ => callFrame (comp m)
    end.
Proof.
  rewrite comp_step.
  destruct (commit_destroys env (comp m) (fst (handle env l m))) as [_ ->].
  destruct l; cbn [handle fst]; unfold onFrame; try reflexivity.
  - unfold endConversation. destruct (callFrame (comp m)) eqn:E; cbn; auto.
  - unfold toggleMute. destruct (callFrame (comp m)) eqn:E; cbn; auto.
  - destruct (startConversation env (comp m)) as [s' k] eqn:E.
    change s' with (fst (s', k)). rewrite <- E. apply startConversation_frame.
  - unfold handleSendMessage. destruct (blank (inputText (comp m))); auto.
  - unfold mockReply. destruct (timeouts (comp m)); auto.
  - unfold tick. destruct (existsb (Nat.eqb i) (intervals (comp m))); auto.
  - destruct (Nat.ltb f (nextFrame (comp m))); auto.
  - destruct (Nat.ltb f (nextFrame (comp m))); auto.
  - destruct (Nat.ltb f (nextFrame (comp m))); auto.
  - destruct (Nat.ltb f (nextFrame (comp m))); auto.
    unfold onParticipantJoined. destruct (Js.eqb user_name (lit "Chatbot")); auto.
  - destruct (Nat.ltb f (nextFrame (comp m))); auto.
  - destruct (nth_error (tasks m) task) as [c|].
    + destruct (resume c o (comp m)) as [s' k] eqn:E.
      cbn [fst]. change s' with (fst (s', k)). rewrite <- E, resume_callFrame.
      destruct c, o as [[|?|]|?]; reflexivity.
    + destruct o as [[|?|]|?]; reflexivity.
Qed.

(** C10, as the code has it.  In every step of the component, whatever is
    interleaved, [callFrame] changes in two places only: it becomes a new
    frame in the step in which the [join] of that frame resolves (line 211),
    and it becomes null in the step in which the teardown of a stored frame
    is over (line 147), before the response is awaited.  Every other step
    leaves it as it was just before that step; so does each step in which an
    attempt fails (want of a credential, request, response or [join] error).
    Hence [callFrame] after a failing attempt need not be what it was before
    the attempt.  With nothing in between, an attempt that fails for want of
    a credential leaves [callFrame] as it was, one that fails later leaves
    it null, a successful one leaves its new frame, and while the attempt is
    in flight [callFrame] is the previous value or null. *)
Theorem callFrame_after_attempt env o s :
  (forall l m,
      callFrame (comp (step env l m))
      = match l with
        | Deliver i (Settle r) =>
            match nth_error (tasks m) i, r with
            | Some (AwaitOldDestroy _), _ => None
            | Some (AwaitJoin f), Resolved => Some f
            | _, _ => callFrame (comp m)
            end
        | _ => callFrame (comp m)
        end) /\
  (connectLockRef s || isConnecting s || isConnected s = false ->
   snd (attempt env o s) = None /\
   callFrame (fst (attempt env o s))
     = (if configured (VITE_PIPECAT_TOKEN env)
        then if succeeds o then Some (nextFrame s) else None
        else callFrame s) /\
   (forall n,
       snd (advance n o (startConversation env s)) <> None ->
       let now := callFrame (fst (advance n o (startConversation env s))) in
       now = callFrame s \/ now = None)).
Proof.
  split.
  - apply step_callFrame.
  - apply callFrame_after_attempt_alone.
Qed.

Lemma callFrame_after_attempt_witness :
  let s := comp afterConversation in
  callFrame s = Some 0 /\
  snd (attempt envOk serverDown s) = None /\
  callFrame (fst (attempt envOk serverDown s)) = None /\
  (forall n,
      snd (advance n serverDown (startConversation envOk s)) <> None ->
      let now := callFrame (fst (advance n serverDown (startConversation envOk s))) in
      now = callFrame s \/ now = None).
Proof.
  split; [reflexivity|].
  apply (proj2 (callFrame_after_attempt envOk serverDown (comp afterConversation))).
  vm_compute. reflexivity.
Defined.

(** ** The lock along a run *)

Lemma resume_frames_any c o s :
  List.length (framesCreated (fst (resume c o s)))
    + framesToCome (snd (resume c o s))
  = List.length (framesCreated s) + framesToCome (Some c).
Proof.
  resume_cases c o; unfold swallow; repeat (break_var; cbn);
    log_simpl; lia.
Qed.

Lemma resume_isOpen c o s :
  isOpen (fst (resume c o s)) = false \/ isOpen (fst (resume c o s)) = isOpen s.
Proof.
  resume_cases c o; unfold swallow; repeat (break_var; cbn); auto.
Qed.

Lemma framesPending_app ts ts' :
  framesPending (ts ++ ts') = framesPending ts + framesPending ts'.
Proof. unfold framesPending. now rewrite map_app, list_sum_app. Qed.

Lemma framesPending_spawn k ts :
  framesPending (spawn k ts) = framesPending ts + framesToCome k.
Proof.
  destruct k; cbn [spawn framesToCome]; [|lia].
  rewrite framesPending_app. unfold framesPending. cbn. lia.
Qed.

Lemma framesPending_cons c ts :
  framesPending (c :: ts) = framesToCome (Some c) + framesPending ts.
Proof. reflexivity. Qed.

Lemma framesPending_replace ts i c k :
  nth_error ts i = Some c ->
  framesPending (firstn i ts ++ spawn k [] ++ skipn (S i) ts)
    + framesToCome (Some c)
  = framesPending ts + framesToCome k.
Proof.
  revert i. induction ts as [|c' ts IH]; intros [|i] H; try discriminate.
  - injection H as ->. cbn [firstn skipn app].
    rewrite framesPending_app, framesPending_spawn, framesPending_cons.
    unfold framesPending at 1. cbn. lia.
  - cbn [nth_error] in H. specialize (IH i H).
    cbn [firstn skipn app] in *. rewrite !framesPending_cons. lia.
Qed.

Lemma timer_effects_inert s :
  (effects (timerCleanup s) = effects s /\ isOpen (timerCleanup s) = isOpen s /\
   connectLockRef (timerCleanup s) = connectLockRef s) /\
  (effects (timerEffect s) = effects s /\ isOpen (timerEffect s) = isOpen s /\
   connectLockRef (timerEffect s) = connectLockRef s).
Proof.
  unfold timerCleanup, timerEffect, clearTimerRef.
  destruct (timerRef s), (isConnected s); cbn; auto.
Qed.

(** The effects start no attempt when the lock is held, and none unless the
    widget has just been opened. *)
Lemma commit_starts_nothing env b a :
  connectLockRef a = true \/ isOpen a = false \/ isOpen b = isOpen a ->
  effects (fst (commit env b a)) = effects a /\
  snd (commit env b a) = None /\
  connectLockRef (fst (commit env b a)) = connectLockRef a.
Proof.
  intros H. unfold commit.
  set (s1 := if negb (Bool.eqb (isConnected b) (isConnected a))
             then timerCleanup a else a).
  assert (E1 : effects s1 = effects a /\ isOpen s1 = isOpen a /\
               connectLockRef s1 = connectLockRef a).
  { unfold s1. destruct (negb (Bool.eqb (isConnected b) (isConnected a)));
      [apply timer_effects_inert | auto]. }
  destruct E1 as (Ee & Eo & El).
  assert (E2 : (if negb (Bool.eqb (isOpen b) (isOpen a))
                then autoConnectEffect env s1 else (s1, None)) = (s1, None)).
  { destruct (negb (Bool.eqb (isOpen b) (isOpen a))) eqn:Ec; [|reflexivity].
    unfold autoConnectEffect.
    destruct H as [H | [H | H]].
    - rewrite startConversation_guarded by (now rewrite El, H).
      destruct (isOpen s1 && negb (isConnected s1) && negb (isConnecting s1));
        reflexivity.
    - now rewrite Eo, H.
    - rewrite H, Bool.eqb_reflx in Ec. discriminate Ec. }
  rewrite E2.
  destruct (negb (Bool.eqb (isConnected b) (isConnected a))); cbn [fst snd].
  - destruct (timer_effects_inert s1) as [_ (-> & _ & ->)]. auto.
  - auto.
Qed.

(** What one step leaves of the machine when the effects start nothing. *)
Lemma step_without_start env l m :
  let r := handle env l m in
  connectLockRef (fst r) = true \/ isOpen (fst r) = false
    \/ isOpen (comp m) = isOpen (fst r) ->
  effects (comp (step env l m)) = effects (fst r) /\
  tasks (step env l m) = snd r /\
  connectLockRef (comp (step env l m)) = connectLockRef (fst r).
Proof.
  intros r H. unfold step. fold r. destruct r as [s1 ts]. cbn [fst snd] in *.
  destruct (commit_starts_nothing env (comp m) s1 H) as (H1 & H2 & H3).
  destruct (commit env (comp m) s1) as [s2 k]. cbn [fst snd] in *.
  subst k. auto.
Qed.

Lemma step_start_guarded env m :
  connectLockRef (comp m) || isConnecting (comp m) || isConnected (comp m) = true ->
  step env Start m = m.
Proof.
  intros H. unfold step. cbn [handle].
  rewrite startConversation_guarded by exact H.
  rewrite commit_same by reflexivity. destruct m; reflexivity.
Qed.

Ltac unfold_simple_handlers :=
  cbn [handle fst snd]; unfold onFrame, endConversation, toggleMute,
    handleSendMessage, mockReply, tick, onParticipantJoined,
    onActiveSpeakerChange.

Ltac step_inert env l m :=
  let He := fresh "He" in
  let Ht := fresh "Ht" in
  let Hk := fresh "Hk" in
  destruct (step_without_start env l m) as (He & Ht & Hk);
  [ unfold_simple_handlers; repeat (break_inner; cbn); auto
  | unfold requests, framesCreated; rewrite ?He, ?Ht, ?Hk; clear He Ht Hk;
    unfold_simple_handlers ].

#[global] Arguments framesPending : simpl never.

Ltac conserve_done :=
  cbn; rewrite ?framesPending_app, ?framesPending_cons;
  repeat rewrite ?filter_app, ?length_app; cbn;
  change (framesPending []) with 0;
  rewrite ?app_nil_r; split; [reflexivity | lia].

(** While the lock is held a step issues no request and starts no attempt:
    the frames created and those still to come stay as many. *)
Lemma step_conserves env l m :
  connectLockRef (comp m) = true ->
  requests (comp (step env l m)) = requests (comp m) /\
  List.length (framesCreated (comp (step env l m)))
    + framesPending (tasks (step env l m))
  = List.length (framesCreated (comp m)) + framesPending (tasks m).
Proof.
  intros Hl. destruct l.
  - step_inert env ClickOpen m. auto.
  - step_inert env ClickEnd m.
    destruct (callFrame (comp m)); conserve_done.
  - step_inert env ClickMute m.
    destruct (callFrame (comp m)); conserve_done.
  - rewrite step_start_guarded by (now rewrite Hl). auto.
  - step_inert env (SendMessage newId now) m.
    destruct (blank (inputText (comp m))); conserve_done.
  - step_inert env (Timeout newId now) m.
    destruct (timeouts (comp m)); conserve_done.
  - step_inert env (Tick i) m.
    destruct (existsb (Nat.eqb i) (intervals (comp m))); conserve_done.
  - step_inert env (JoinedMeeting f) m.
    destruct (Nat.ltb f (nextFrame (comp m))); conserve_done.
  - step_inert env (LeftMeeting f) m.
    destruct (Nat.ltb f (nextFrame (comp m))); conserve_done.
  - step_inert env (ErrorEvent f) m.
    destruct (Nat.ltb f (nextFrame (comp m))); conserve_done.
  - step_inert env (ParticipantJoined f user_name newId now) m.
    destruct (Nat.ltb f (nextFrame (comp m))); [|conserve_done].
    destruct (Js.eqb user_name (lit "Chatbot")); conserve_done.
  - step_inert env (ActiveSpeakerChange f) m.
    destruct (Nat.ltb f (nextFrame (comp m))); conserve_done.
  - destruct (step_without_start env (Deliver task o) m) as (He & -> & _).
    { cbn [handle]. destruct (nth_error (tasks m) task) as [c|]; auto.
      destruct (resume_isOpen c o (comp m)) as [H | H];
        destruct (resume c o (comp m)); cbn [fst] in *; auto. }
    unfold requests, framesCreated. rewrite He. cbn [handle].
    destruct (nth_error (tasks m) task) as [c|] eqn:E; [|auto].
    pose proof (resume_requests c o (comp m)) as R.
    pose proof (resume_frames_any c o (comp m)) as F.
    destruct (resume c o (comp m)) as [s' k]. cbn [fst snd] in *.
    split; [exact R|].
    pose proof (framesPending_replace (tasks m) task c k E).
    cbn [framesToCome] in *. unfold framesCreated in *. lia.
Qed.

Ltac lock_kept env l m Hl H :=
  let Hk := fresh "Hk" in
  exfalso;
  destruct (step_without_start env l m) as (_ & _ & Hk);
  [ unfold_simple_handlers; repeat (break_inner; cbn); auto
  | rewrite Hk in H; revert H; unfold_simple_handlers; cbn;
    repeat (break_inner; cbn); intros; congruence ].

(** Who releases the lock: a listener of a frame, or a suspended function
    that resumes (an attempt reaching its [catch] block). *)
Lemma lock_released_by env l m :
  connectLockRef (comp m) = true ->
  connectLockRef (comp (step env l m)) = false ->
  (exists f, l = JoinedMeeting f \/ l = LeftMeeting f \/ l = ErrorEvent f)
  \/ (exists i o, l = Deliver i o).
Proof.
  intros Hl H. destruct l; eauto 6.
  - lock_kept env ClickOpen m Hl H.
  - lock_kept env ClickEnd m Hl H.
  - lock_kept env ClickMute m Hl H.
  - rewrite step_start_guarded in H by (now rewrite Hl). congruence.
  - lock_kept env (SendMessage newId now) m Hl H.
  - lock_kept env (Timeout newId now) m Hl H.
  - lock_kept env (Tick i) m Hl H.
  - lock_kept env (ParticipantJoined f user_name newId now) m Hl H.
  - lock_kept env (ActiveSpeakerChange f) m Hl H.
Qed.

Lemma run_conserves env ls m :
  lockHeldBefore env ls m = true ->
  requests (comp (run env ls m)) = requests (comp m) /\
  List.length (framesCreated (comp (run env ls m)))
    + framesPending (tasks (run env ls m))
  = List.length (framesCreated (comp m)) + framesPending (tasks m).
Proof.
  revert m. induction ls as [|l ls IH]; intros m H; [auto|].
  cbn [lockHeldBefore] in H. apply andb_prop in H. destruct H as [Hl H].
  change (run env (l :: ls) m) with (run env ls (step env l m)).
  destruct (IH _ H) as [-> ->]. now apply step_conserves.
Qed.

(** The first invocation, from a state that passes the guard: when it has
    taken the lock it has issued one request and has created, or has still to
    create, one frame. *)
Lemma first_start env m :
  connectLockRef (comp m) || isConnecting (comp m) || isConnected (comp m) = false ->
  connectLockRef (comp (step env Start m)) = true ->
  List.length (requests (comp (step env Start m)))
  = S (List.length (requests (comp m))) /\
  List.length (framesCreated (comp (step env Start m)))
    + framesPending (tasks (step env Start m))
  = S (List.length (framesCreated (comp m)) + framesPending (tasks m)).
Proof.
  intros Hg Hl.
  destruct (step_without_start env Start m) as (He & Ht & Hk).
  { right. right. cbn [handle].
    destruct (startConversation_frame env (comp m)) as (Ho & _).
    destruct (startConversation env (comp m)); cbn [fst] in *. auto. }
  rewrite Hk in Hl. unfold requests, framesCreated. rewrite He, Ht.
  cbn [handle] in *.
  destruct (configured (VITE_PIPECAT_TOKEN env)) eqn:Hc.
  - destruct (startConversation_begins env (comp m) Hc Hg) as (_ & _ & H1 & H2).
    cbv zeta in H1, H2.
    destruct (startConversation env (comp m)) as [s1 k]. cbn [fst snd] in *.
    rewrite framesPending_spawn. unfold requests, framesCreated in *. lia.
  - rewrite (startConversation_unconfigured env (comp m) Hc Hg) in Hl.
    discriminate Hl.
Qed.



